(** * anyrepo: manifest data model and dependency walkers

    A shallow embedding of [anyrepo/manifest.py] and [anyrepo/iters.py].

    Conventions of the embedding.
    - An [Optional[str]] attribute is an [option string]; Python's truth
      test on it ([if x], [x or y], [not x]) is [truthy]: [None] and the
      empty string are both false.
    - A raised exception is the [Raise] case of [result]; the exception
      classes are the constructors of [exn].
    - Paths are strings, [joinpath] is [pathlib]'s [/]; the file store is a
      finite map from paths to texts, without directories.
    - The text of a file is represented by what PyYAML reads from it.
    - A generator is run to its end against a fixed file store; what it
      yielded, the visited list it leaves and the exception that ended it
      make up a [run].  The recursion of the walkers is bounded by fuel;
      [walkers_terminate] shows how much suffices. *)

From Stdlib Require Import Ascii DecimalString.
From stdpp Require Import gmap strings list fin_maps.

Set Warnings "-clear-no-such-hyp".

Open Scope string_scope.
Open Scope list_scope.

(** ** Exceptions and results *)

(** The exception classes that the modelled code can raise: the two manifest
    errors of [anyrepo/exceptions.py], and the built-in, PyYAML and pydantic
    ones that escape from [manifest.py] and [iters.py]. *)
Inductive exn : Type :=
  | ManifestNotFoundError (path : string)
  | ManifestError (path : string) (details : string)
  | ValueError (msg : string)
  | ValidationError (errors : list string)
  | YAMLError
  | AttributeError
  | TypeError
  | AssertionError.

Inductive result (A : Type) : Type :=
  | Ok (a : A)
  | Raise (e : exn).
Arguments Ok {A} a.
Arguments Raise {A} e.

#[global] Instance result_ret : MRet result := fun _ a => Ok a.
#[global] Instance result_bind : MBind result := fun _ _ k r =>
  match r with
  | Ok a => k a
  | Raise e => Raise e
  end.

Definition is_ok {A} (r : result A) : bool :=
  match r with Ok _ => true | Raise _ => false end.

(** ** Python's view of optional strings *)

(** [bool(x)] for [x : Optional[str]]. *)
Definition truthy (x : option string) : bool :=
  match x with
  | None => false
  | Some s => negb (String.eqb s "")
  end.

(** [x or y] where both sides are [Optional[str]]. *)
Definition py_or (x y : option string) : option string :=
  if truthy x then x else y.

(** [x or y] where [y] is a [str]: the value is a [str]. *)
Definition py_or_str (x : option string) (y : string) : string :=
  match x with
  | Some s => if String.eqb s "" then y else s
  | None => y
  end.

(** [str(x)], as an f-string renders an [Optional[str]]. *)
Definition py_str (x : option string) : string :=
  match x with
  | Some s => s
  | None => "None"
  end.

(** ** What PyYAML and pydantic see

    [pyval] is the data PyYAML hands over: scalars, lists and dicts with
    string keys, the items of a dict in a list that is searched from the
    front.  Floats, timestamps and tagged Python objects are outside the
    model. *)
#[warnings="-register-all"]
Inductive pyval : Type :=
  | PNone
  | PBool (b : bool)
  | PInt (z : Z)
  | PStr (s : string)
  | PList (l : list pyval)
  | PDict (d : list (string * pyval)).

(** [d.get(key)] on the items of a dict. *)
Fixpoint dict_get (d : list (string * pyval)) (key : string) : option pyval :=
  match d with
  | [] => None
  | (k, v) :: d' => if String.eqb k key then Some v else dict_get d' key
  end.

(** The text of a file is represented by what [yaml.load] makes of it:
    either it is rejected, or it denotes a value.  [yaml.dump] writes a text
    that denotes the value it was given. *)
Inductive text : Type :=
  | Unparsable
  | Denotes (data : pyval).

Definition yaml_load (content : text) : result pyval :=
  match content with
  | Unparsable => Raise YAMLError
  | Denotes data => Ok data
  end.

Definition yaml_dump (data : pyval) : text := Denotes data.

(** The outcome of validating one field: the error messages, or the value. *)
Definition field (A : Type) : Type := (list string + A)%type.

Definition errors_of {A} (f : field A) : list string :=
  match f with inl errors => errors | inr _ => [] end.

Definition value_of {A} (f : field A) : option A :=
  match f with inl _ => None | inr a => Some a end.

(** pydantic's [str_validator]: a [str] is taken as it is, a number is
    rendered with [str()], anything else is refused. *)
Definition str_validator (v : pyval) : field string :=
  match v with
  | PStr s => inr s
  | PInt z => inr (NilZero.string_of_int (Z.to_int z))
  | PBool b => inr (if b then "True" else "False")
  | PNone => inl ["none is not an allowed value"]
  | PList _ | PDict _ => inl ["str type expected"]
  end.

(** A field [x: str] without default. *)
Definition required_str (v : option pyval) : field string :=
  match v with
  | None => inl ["field required"]
  | Some v => str_validator v
  end.

(** A field [x: Optional[str] = None]. *)
Definition optional_str (v : option pyval) : field (option string) :=
  match v with
  | None | Some PNone => inr None
  | Some v =>
      match str_validator v with
      | inl errors => inl errors
      | inr s => inr (Some s)
      end
  end.

(** A value for a model class: it has to be a dict, which is handed to the
    class.  (pydantic would also accept a sequence of pairs; YAML manifests
    do not contain one.) *)
Definition model_item {A} (validate : list (string * pyval) -> field A) (v : pyval)
    : field A :=
  match v with
  | PDict d => validate d
  | PNone => inl ["none is not an allowed value"]
  | _ => inl ["value is not a valid dict"]
  end.

(** A field [x: Model = default]. *)
Definition model_field {A} (validate : list (string * pyval) -> field A) (default : A)
    (v : option pyval) : field A :=
  match v with
  | None => inr default
  | Some v => model_item validate v
  end.

(** The items of a [List[Model]] value: every item is validated, the errors
    of all of them are collected. *)
Fixpoint list_items {A} (validate : list (string * pyval) -> field A) (l : list pyval)
    : field (list A) :=
  match l with
  | [] => inr []
  | v :: l' =>
      let item := model_item validate v in
      let rest := list_items validate l' in
      match item, rest with
      | inr a, inr l'' => inr (a :: l'')
      | _, _ => inl (errors_of item ++ errors_of rest)
      end
  end.

(** A field [x: List[Model] = []]. *)
Definition list_field {A} (validate : list (string * pyval) -> field A) (v : option pyval)
    : field (list A) :=
  match v with
  | None => inr []
  | Some (PList l) => list_items validate l
  | Some PNone => inl ["none is not an allowed value"]
  | Some _ => inl ["value is not a valid list"]
  end.

(** A field with an alias, in a class with [allow_population_by_field_name]:
    the alias is looked up first, then the field's own name. *)
Definition by_alias (d : list (string * pyval)) (alias name : string) : option pyval :=
  match dict_get d alias with
  | Some v => Some v
  | None => dict_get d name
  end.

(** [ValidationError] if any message was collected. *)
Definition validated {A} (errors : list string) (a : A) : field A :=
  match errors with
  | [] => inr a
  | _ => inl errors
  end.

(** An entry of [.dict(exclude_none=True)] for an optional attribute. *)
Definition dict_entry (key : string) (x : option string) : list (string * pyval) :=
  match x with
  | Some s => [(key, PStr s)]
  | None => []
  end.

(** ** anyrepo/manifest.py *)

Module manifest.

Module Remote.
Record t : Type := mk { name : string; url_base : option string }.
#[global] Instance eq_dec : EqDecision t.
Proof. solve_decision. Defined.
End Remote.

Module Defaults.
Record t : Type := mk { remote : option string; revision : option string }.
#[global] Instance eq_dec : EqDecision t.
Proof. solve_decision. Defined.

(** [Defaults()] *)
Definition new : t := mk None None.
End Defaults.

Module Project.
Record t : Type := mk {
  name : string;
  remote : option string;
  sub_url : option string;
  url : option string;
  revision : option string;
  path : option string
}.
#[global] Instance eq_dec : EqDecision t.
Proof. solve_decision. Defined.

(** The root validator.  It reads [remote], [sub_url] and [url] out of the
    field values and either raises a [ValueError] or hands the values
    back. *)
Definition _remote_or_url (values : t) : result t :=
  let remote := remote values in
  let sub_url := sub_url values in
  let url := url values in
  if truthy remote && truthy url then
    Raise (ValueError "'remote' and 'url' are mutually exclusive")
  else if truthy url && truthy sub_url then
    Raise (ValueError "'url' and 'sub-url' are mutually exclusive")
  else if truthy sub_url && negb (truthy remote) then
    Raise (ValueError "'sub-url' requires 'remote'")
  else Ok values.

(** [Project(name=..., remote=..., ...)]: pydantic runs the root validator
    on the field values and reports its [ValueError] as a
    [ValidationError]. *)
Definition init (name : string) (remote sub_url url revision path : option string)
  : result t :=
  match _remote_or_url (mk name remote sub_url url revision path) with
  | Ok values => Ok values
  | Raise (ValueError msg) => Raise (ValidationError [msg])
  | Raise e => Raise e
  end.

(** The class invariant of a constructed declaration. *)
Definition valid (p : t) : Prop := _remote_or_url p = Ok p.
End Project.

Module RemoteData.
(** [Remote] built from the items [d] of a dict. *)
Definition validate (d : list (string * pyval)) : field Remote.t :=
  let name := required_str (dict_get d "name") in
  let url_base := optional_str (by_alias d "url-base" "url_base") in
  validated (errors_of name ++ errors_of url_base)
    (Remote.mk (default "" (value_of name)) (default None (value_of url_base))).

(** [remote.dict(by_alias=True, exclude_none=True)] *)
Definition dict (self : Remote.t) : list (string * pyval) :=
  [("name", PStr (Remote.name self))] ++ dict_entry "url-base" (Remote.url_base self).
End RemoteData.

Module DefaultsData.
(** [Defaults] built from the items [d] of a dict. *)
Definition validate (d : list (string * pyval)) : field Defaults.t :=
  let remote := optional_str (dict_get d "remote") in
  let revision := optional_str (dict_get d "revision") in
  validated (errors_of remote ++ errors_of revision)
    (Defaults.mk (default None (value_of remote)) (default None (value_of revision))).

Definition dict (self : Defaults.t) : list (string * pyval) :=
  dict_entry "remote" (Defaults.remote self)
  ++ dict_entry "revision" (Defaults.revision self).
End DefaultsData.

Module ProjectData.
(** [Project] built from the items [d] of a dict: the fields are validated one by one, then the root
    validator runs on the values of the fields that passed (a field that
    failed is missing from [values], so [values.get] gives [None] for
    it), and all messages are raised together. *)
Definition validate (d : list (string * pyval)) : field Project.t :=
  let name := required_str (dict_get d "name") in
  let remote := optional_str (dict_get d "remote") in
  let sub_url := optional_str (by_alias d "sub-url" "sub_url") in
  let url := optional_str (dict_get d "url") in
  let revision := optional_str (dict_get d "revision") in
  let path := optional_str (dict_get d "path") in
  let values :=
    Project.mk (default "" (value_of name)) (default None (value_of remote))
      (default None (value_of sub_url)) (default None (value_of url))
      (default None (value_of revision)) (default None (value_of path)) in
  let root :=
    match Project._remote_or_url values with
    | Raise (ValueError msg) => [msg]
    | _ => []
    end in
  validated
    (errors_of name ++ errors_of remote ++ errors_of sub_url ++ errors_of url
     ++ errors_of revision ++ errors_of path ++ root)
    values.

Definition dict (self : Project.t) : list (string * pyval) :=
  [("name", PStr (Project.name self))]
  ++ dict_entry "remote" (Project.remote self)
  ++ dict_entry "sub-url" (Project.sub_url self)
  ++ dict_entry "url" (Project.url self)
  ++ dict_entry "revision" (Project.revision self)
  ++ dict_entry "path" (Project.path self).
End ProjectData.

Module Manifest.
Record t : Type := mk {
  main : Project.t;
  defaults : Defaults.t;
  remotes : list Remote.t;
  projects : list Project.t
}.
#[global] Instance eq_dec : EqDecision t.
Proof. solve_decision. Defined.

(** [Manifest()]: every attribute at its default. *)
Definition new : t :=
  mk (Project.mk "main" None None None None None) Defaults.new [] [].

(** The class called on the items [d] of a dict. *)
Definition validate (d : list (string * pyval)) : field t :=
  let main := model_field ProjectData.validate (main new) (by_alias d "self" "main") in
  let defaults := model_field DefaultsData.validate (defaults new) (dict_get d "defaults") in
  let remotes := list_field RemoteData.validate (dict_get d "remotes") in
  let projects := list_field ProjectData.validate (dict_get d "projects") in
  validated
    (errors_of main ++ errors_of defaults ++ errors_of remotes ++ errors_of projects)
    (mk (default (Manifest.main new) (value_of main))
        (default (Manifest.defaults new) (value_of defaults))
        (default [] (value_of remotes)) (default [] (value_of projects))).

(** [self.dict(by_alias=True, exclude_none=True)] *)
Definition dict (self : t) : list (string * pyval) :=
  [ ("self", PDict (ProjectData.dict (main self)));
    ("defaults", PDict (DefaultsData.dict (defaults self)));
    ("remotes", PList (map (fun r => PDict (RemoteData.dict r)) (remotes self)));
    ("projects", PList (map (fun p => PDict (ProjectData.dict p)) (projects self))) ].

(** The class called with [manifestdata] unpacked as keyword arguments:
    the argument has to be a mapping. *)
Definition init (manifestdata : pyval) : result t :=
  match manifestdata with
  | PDict d =>
      match validate d with
      | inr manifest => Ok manifest
      | inl errors => Raise (ValidationError errors)
      end
  | _ => Raise TypeError
  end.

(** [load]: read the file, parse it, take the value under ["manifest"]
    (an empty dict if there is none) and build the manifest from it.  The
    store holds files only: a directory at the path, on which [read_text]
    raises [IsADirectoryError], has no counterpart here. *)
Definition load (fs : gmap string text) (path : string) : result t :=
  content ← match fs !! path with
            | Some content => Ok content
            | None => Raise (ManifestNotFoundError path)
            end;
  data ← yaml_load content;
  manifestdata ← match data with
                 | PDict d => Ok (default (PDict []) (dict_get d "manifest"))
                 | _ => Raise AttributeError
                 end;
  init manifestdata.

(** [save]: the file at [path] is overwritten with the dump of the
    manifest's dict.  Directories are not part of the file store, so
    creating the parent directories leaves no trace. *)
Definition save (self : t) (path : string) (fs : gmap string text) : gmap string text :=
  let data := PDict [("manifest", PDict (dict self))] in
  <[path := yaml_dump data]> fs.

(** Every declaration of the manifest satisfies the class invariant. *)
Definition valid (m : t) : Prop :=
  Project.valid (main m) ∧ Forall Project.valid (projects m).
End Manifest.

Module ResolvedProject.
(** A subclass of [Project]: [remote] and [sub_url] are inherited and stay
    unset, [path] is a plain [str]. *)
Record t : Type := mk {
  name : string;
  remote : option string;
  sub_url : option string;
  url : option string;
  revision : option string;
  path : string;
  manifest : option Manifest.t
}.
#[global] Instance eq_dec : EqDecision t.
Proof. solve_decision. Defined.

(** [ResolvedProject(name=..., path=..., url=..., revision=...)]; the
    inherited root validator runs on the values. *)
Definition init (name path : string) (url revision : option string) : result t :=
  match Project._remote_or_url (Project.mk name None None url revision (Some path)) with
  | Ok _ => Ok (mk name None None url revision path None)
  | Raise (ValueError msg) => Raise (ValidationError [msg])
  | Raise e => Raise e
  end.

(** [from_project]: the URL is the declaration's own, or it is assembled
    from the first remote whose name is the declaration's remote (or the
    default one); path and revision fall back to the name and to the
    default revision. *)
Definition from_project (defaults : Defaults.t) (remotes : list Remote.t)
    (project : Project.t) : result t :=
  let url := Project.url project in
  url ←
    (if negb (truthy url) then
       let project_remote := py_or (Project.remote project) (Defaults.remote defaults) in
       if truthy project_remote then
         let project_sub_url := py_or_str (Project.sub_url project) (Project.name project) in
         match find (fun remote => bool_decide (Some (Remote.name remote) = project_remote))
                    remotes with
         | Some remote =>
             Ok (Some (py_str (Remote.url_base remote) +:+ "/" +:+ project_sub_url))
         | None =>
             Raise (ValueError ("Unknown remote " +:+ py_str (Project.remote project)
                                +:+ " for project " +:+ Project.name project))
         end
       else Ok url
     else Ok url);
  init (Project.name project)
       (py_or_str (Project.path project) (Project.name project))
       url
       (py_or (Project.revision project) (Defaults.revision defaults)).
End ResolvedProject.

End manifest.

(** ** Paths and URLs *)

(** [pathlib]'s [a / b]: an absolute [b] replaces [a], a relative one is
    appended after a slash.  (pathlib's removal of ["."] segments and of
    doubled or trailing slashes is not modelled.) *)
Definition joinpath (a b : string) : string :=
  match b with
  | String "/"%char _ => b
  | _ => a +:+ "/" +:+ b
  end.

(** [s.split("/")] *)
Fixpoint split_slash (s : string) : list string :=
  match s with
  | "" => [""]
  | String c s' =>
      if Ascii.eqb c "/"%char then "" :: split_slash s'
      else match split_slash s' with
           | seg :: segs => String c seg :: segs
           | [] => [String c ""]
           end
  end.

(** ["/".join(segs)] *)
Fixpoint join_slash (segs : list string) : string :=
  match segs with
  | [] => ""
  | [seg] => seg
  | seg :: segs' => seg +:+ "/" +:+ join_slash segs'
  end.

(** [path.name]: the last segment. *)
Definition path_name (path : string) : string :=
  List.last (split_slash path) "".

(** *** URL references

    The reference URL is joined by [Project.from_spec], which is not among
    the sources; what follows is the reference resolution of RFC 3986, which
    is what the spec's "standard URL/path join semantics" (section 4.3)
    names. *)

(** Whether [c] is one of the characters of [chars]. *)
Definition one_of (chars : string) (c : ascii) : bool :=
  existsb (Ascii.eqb c) (String.list_ascii_of_string chars).

(** No character of [s] is one of [chars]. *)
Definition free_of (chars : string) (s : string) : bool :=
  forallb (fun c => negb (one_of chars c)) (String.list_ascii_of_string s).

(** The longest prefix of [s] without a character that satisfies [stop], and
    what follows it. *)
Fixpoint break (stop : ascii -> bool) (s : string) : string * string :=
  match s with
  | "" => ("", "")
  | String c s' =>
      if stop c then ("", s)
      else let '(before, rest) := break stop s' in (String c before, rest)
  end.

(** What follows the prefix [prefix] of [s], if [s] begins with it. *)
Fixpoint strip_prefix (prefix s : string) : option string :=
  match prefix, s with
  | "", _ => Some s
  | String a prefix', String b s' =>
      if Ascii.eqb a b then strip_prefix prefix' s' else None
  | String _ _, "" => None
  end.

(** The five components of a URL reference (RFC 3986, section 3). *)
Record url_parts : Type := mk_url {
  url_scheme : option string;
  url_authority : option string;
  url_path : string;
  url_query : option string;
  url_fragment : option string
}.

(** Modelled from the spec: the components of a URL reference, split as the
    regular expression of RFC 3986, appendix B, does: a scheme is what
    comes before the first colon if that is not empty and holds no slash,
    question mark or hash; an authority follows two slashes; the path ends
    at the first question mark or hash.  The URL join of
    [Project.from_spec], which is not among the sources, begins with it. *)
Definition urlsplit (url : string) : url_parts :=
  let '(scheme, rest) :=
    let '(before, rest) := break (one_of ":/?#") url in
    match strip_prefix ":" rest with
    | Some rest' => if String.eqb before "" then (None, url) else (Some before, rest')
    | None => (None, url)
    end in
  let '(authority, rest) :=
    match strip_prefix "//" rest with
    | Some rest' =>
        let '(authority, rest) := break (one_of "/?#") rest' in (Some authority, rest)
    | None => (None, rest)
    end in
  let '(path, rest) := break (one_of "?#") rest in
  let '(query, rest) :=
    match strip_prefix "?" rest with
    | Some rest' => let '(query, rest) := break (one_of "#") rest' in (Some query, rest)
    | None => (None, rest)
    end in
  mk_url scheme authority path query (strip_prefix "#" rest).

(** Modelled from the spec: the components put together again (RFC 3986,
    section 5.3), the last step of the URL join of [Project.from_spec],
    which is not among the sources. *)
Definition urlunsplit (u : url_parts) : string :=
  (match url_scheme u with Some scheme => scheme +:+ ":" | None => "" end)
  +:+ (match url_authority u with Some authority => "//" +:+ authority | None => "" end)
  +:+ url_path u
  +:+ (match url_query u with Some query => "?" +:+ query | None => "" end)
  +:+ (match url_fragment u with Some fragment => "#" +:+ fragment | None => "" end).

(** The segments of a path with the dot segments taken out, last segment
    first: [.] is dropped, [..] drops the segment before it, if there is
    one; a dot segment at the end leaves an empty last segment, that is a
    slash at the end of the path. *)
Fixpoint remove_dots (segs : list string) (out : list string) : list string :=
  match segs with
  | [] => out
  | seg :: segs' =>
      if String.eqb seg ".." then
        match segs' with
        | [] => "" :: tail out
        | _ => remove_dots segs' (tail out)
        end
      else if String.eqb seg "." then
        match segs' with
        | [] => "" :: out
        | _ => remove_dots segs' out
        end
      else remove_dots segs' (seg :: out)
  end.

(** Modelled from the spec: [remove_dot_segments] of RFC 3986, section
    5.2.4, on a path; a path that begins with a slash keeps it, and [..]
    never climbs above the root.  It is a step of the URL join of
    [Project.from_spec], which is not among the sources. *)
Definition remove_dot_segments (path : string) : string :=
  match strip_prefix "/" path with
  | Some rest => "/" +:+ join_slash (rev (remove_dots (split_slash rest) []))
  | None => join_slash (rev (remove_dots (split_slash path) []))
  end.

(** Whether a path ends in a slash. *)
Fixpoint ends_with_slash (path : string) : bool :=
  match path with
  | "" => false
  | String c "" => Ascii.eqb c "/"%char
  | String _ path' => ends_with_slash path'
  end.

(** Modelled from the spec: the path references are merged with.  The
    reference URL is "the upstream URL of the enclosing/parent project"
    (section 4.3), and the spec's example joins [../dep4] against
    [https://example.com/base/dep1] to [https://example.com/base/dep4]: the
    project counts as a directory, whether or not its URL ends in a
    slash.  It is a step of the URL join of [Project.from_spec], which is
    not among the sources. *)
Definition directory (path : string) : string :=
  if ends_with_slash path then path else path +:+ "/".

(** Modelled from the spec: whether a URL is relative (section 4.3), that
    is a relative reference of RFC 3986: a URL without scheme; an empty
    URL is no URL.  The function that decides it is called by
    [Project.from_spec], which is not among the sources. *)
Definition is_relative (url : string) : bool :=
  match url with
  | "" => false
  | _ => bool_decide (url_scheme (urlsplit url) = None)
  end.

(** Modelled from the spec: "resolving that relative reference against
    [refURL] using standard URL/path join semantics" (section 4.3): the
    reference resolution of RFC 3986, section 5.2.2, against the reference
    URL taken as a directory.  The join is done by [Project.from_spec],
    which is not among the sources. *)
Definition urljoin (refurl url : string) : string :=
  let base := urlsplit refurl in
  let reference := urlsplit url in
  match url_scheme reference with
  | Some _ => url
  | None =>
      match url_authority reference with
      | Some _ =>
          urlunsplit
            (mk_url (url_scheme base) (url_authority reference)
               (remove_dot_segments (url_path reference))
               (url_query reference) (url_fragment reference))
      | None =>
          if String.eqb (url_path reference) "" then
            urlunsplit
              (mk_url (url_scheme base) (url_authority base) (url_path base)
                 (match url_query reference with
                  | Some query => Some query
                  | None => url_query base
                  end)
                 (url_fragment reference))
          else if bool_decide (is_Some (strip_prefix "/" (url_path reference))) then
            urlunsplit
              (mk_url (url_scheme base) (url_authority base)
                 (remove_dot_segments (url_path reference))
                 (url_query reference) (url_fragment reference))
          else
            urlunsplit
              (mk_url (url_scheme base) (url_authority base)
                 (remove_dot_segments (directory (url_path base) +:+ url_path reference))
                 (url_query reference) (url_fragment reference))
      end
  end.

(** ** The world the walkers run in *)

(** The files of the workspace with their texts, and the git clones with
    the URL they were cloned from, both by path. *)
Record World : Type := mkWorld {
  files : gmap string text;
  clones : gmap string string
}.

(** [Git(path)]: [is_cloned()] and [get_url()]. *)
Module Git.
Definition is_cloned (w : World) (path : string) : bool :=
  bool_decide (is_Some (clones w !! path)).

Definition get_url (w : World) (path : string) : option string := clones w !! path.
End Git.

(** [Workspace]: the root [path], the absolute [main_path] of the main
    project, and [info.main_path], its path below the root.  The class is
    not among the sources; the walkers only read these attributes. *)
Module Workspace.
Record info_t : Type := mk_info { info_main_path : string }.
Record t : Type := mk { path : string; main_path : string; info : info_t }.
End Workspace.

(** What a generator has done when it stops: the elements it yielded, the
    visited list it leaves behind, and the exception that ended it, if any. *)
Record run (A : Type) : Type := mk_run {
  yielded : list A;
  visited : list string;
  raised : option exn
}.
Arguments mk_run {A} yielded visited raised.
Arguments yielded {A} r.
Arguments visited {A} r.
Arguments raised {A} r.

(** [for x in items: yield from f(x)], the visited list threaded through;
    [None] when a call ran out of fuel. *)
Fixpoint yield_from_each {A B} (f : B -> list string -> option (run A)) (items : list B)
    (done : list string) : option (run A) :=
  match items with
  | [] => Some (mk_run [] done None)
  | x :: items' =>
      match f x done with
      | None => None
      | Some r =>
          match raised r with
          | Some _ => Some r
          | None =>
              match yield_from_each f items' (visited r) with
              | None => None
              | Some r' => Some (mk_run (yielded r ++ yielded r') (visited r') (raised r'))
              end
          end
      end
  end.

(** ** anyrepo/iters.py *)

Module iters.

Module ProjectSpec := manifest.Project.

(** [ManifestSpec] is the manifest document of [manifest.py]; its list of
    declarations is read as [dependencies]. *)
Module ManifestSpec.
Definition t : Type := manifest.Manifest.t.
Definition defaults : t -> manifest.Defaults.t := manifest.Manifest.defaults.
Definition remotes : t -> list manifest.Remote.t := manifest.Manifest.remotes.
Definition dependencies : t -> list ProjectSpec.t := manifest.Manifest.projects.

(** [ManifestSpec()] *)
Definition new : t := manifest.Manifest.new.

(** Modelled from the spec: [load] with a [default], which "returns
    [default] instead of raising when the file is missing" (section 4.2);
    [manifest.py] has [load] without that argument. *)
Definition load (fs : gmap string text) (path : string) (default : option t) : result t :=
  match manifest.Manifest.load fs path, default with
  | Raise (ManifestNotFoundError _), Some manifest => Ok manifest
  | loaded, _ => loaded
  end.
End ManifestSpec.

(** Modelled from the spec: "that project's expected manifest location"
    (section 4.4), read by the walkers as [manifest_path] of a project; the
    attribute is not in [manifest.py].  The file name is the one the test
    fixtures save manifests to. *)
Definition MANIFEST_PATH : string := "anyrepo.toml".

(** [Project] as [iters.py] uses it: a resolved project that knows its
    manifest location. *)
Module Project.
Record t : Type := mk {
  name : string;
  path : string;
  url : option string;
  revision : option string;
  manifest_path : string
}.
#[global] Instance eq_dec : EqDecision t.
Proof. solve_decision. Defined.

(** [Project(name=..., path=...)] *)
Definition init (name path : string) : t := mk name path None None MANIFEST_PATH.

(** Modelled from the spec: [from_spec] with [refurl] (section 4.3), which
    is not among the sources.  It resolves like
    [manifest.ResolvedProject.from_project] of [manifest.py]; then, when a reference
    URL is supplied and the URL is relative, the URL is joined against the
    reference URL. *)
Definition from_spec (defaults : manifest.Defaults.t) (remotes : list manifest.Remote.t)
    (spec : ProjectSpec.t) (refurl : option string) : result t :=
  resolved ← manifest.ResolvedProject.from_project defaults remotes spec;
  let url :=
    match refurl, manifest.ResolvedProject.url resolved with
    | Some refurl, Some url => Some (if is_relative url then urljoin refurl url else url)
    | _, url => url
    end in
  Ok (mk (manifest.ResolvedProject.name resolved) (manifest.ResolvedProject.path resolved) url
         (manifest.ResolvedProject.revision resolved) MANIFEST_PATH).
End Project.

(** [Manifest] as [iters.py] uses it: a manifest document with the path of
    its file. *)
Module Manifest.
Record dependency : Type := mk_dependency {
  project_path : string;
  project_manifest_path : string
}.

Record t : Type := mk { spec : ManifestSpec.t; path : string }.

(** Modelled from the spec: [from_spec], "wrap it into a located Manifest
    value carrying its own file path" (section 4.4); the class is not among
    the sources. *)
Definition from_spec (spec : ManifestSpec.t) (path : string) : t := mk spec path.

(** Modelled from the spec: [dependencies], of which the walker reads the
    path, "declaration path-or-name" (section 4.4), and the manifest
    location. *)
Definition dependencies (self : t) : list dependency :=
  map (fun declaration =>
         mk_dependency
           (py_or_str (ProjectSpec.path declaration) (ProjectSpec.name declaration))
           MANIFEST_PATH)
      (ManifestSpec.dependencies (spec self)).
End Manifest.

Module ManifestIter.
(** The attributes of the iterator; its visited list [__done] is threaded
    through the calls. *)
Record t : Type := mk { workspace : Workspace.t; manifest_path : string }.

(** The first loop of [__iter]: every dependency whose path is not visited
    yet is marked visited, and queued if a manifest file exists at its
    manifest location. *)
Fixpoint scan (w : World) (self : t) (dependencies : list Manifest.dependency)
    (done : list string) : list string * list (string * string) :=
  match dependencies with
  | [] => (done, [])
  | dep_project :: dependencies' =>
      if bool_decide (Manifest.project_path dep_project ∈ done) then
        scan w self dependencies' done
      else
        let done := done ++ [Manifest.project_path dep_project] in
        let dep_project_path :=
          joinpath (Workspace.path (workspace self)) (Manifest.project_path dep_project) in
        let dep_manifest_path :=
          joinpath dep_project_path (Manifest.project_manifest_path dep_project) in
        let '(done', deps) := scan w self dependencies' done in
        if bool_decide (is_Some (files w !! dep_manifest_path)) then
          (done', (dep_project_path, dep_manifest_path) :: deps)
        else (done', deps)
  end.

(** [__iter]: load and yield the manifest, scan its dependencies, then
    descend into the queued ones.  [fuel] bounds the depth of the descent. *)
Fixpoint __iter (w : World) (self : t) (fuel : nat) (project_path manifest_path : string)
    (done : list string) : option (run Manifest.t) :=
  match fuel with
  | O => None
  | S fuel' =>
      match ManifestSpec.load (files w) manifest_path None with
      | Raise e => Some (mk_run [] done (Some e))
      | Ok manifest_spec =>
          let manifest := Manifest.from_spec manifest_spec manifest_path in
          let '(done, deps) := scan w self (Manifest.dependencies manifest) done in
          match yield_from_each
                  (fun '(dep_project_path, dep_manifest_path) =>
                     __iter w self fuel' dep_project_path dep_manifest_path)
                  deps done with
          | None => None
          | Some r => Some (mk_run (manifest :: yielded r) (visited r) (raised r))
          end
      end
  end.

(** [__iter__], with a fresh visited list. *)
Definition __iter__ (w : World) (self : t) (fuel : nat) : option (run Manifest.t) :=
  __iter w self fuel (Workspace.main_path (workspace self)) (manifest_path self) [].
End ManifestIter.

Module ProjectIter.
Record t : Type := mk {
  workspace : Workspace.t;
  manifest_path : string;
  skip_main : bool;
  resolve_url : bool
}.

(** What the first loop of [__iter] leaves behind. *)
Record scanned : Type := mk_scanned {
  scan_yielded : list Project.t;
  scan_done : list string;
  scan_deps : list (string * ManifestSpec.t);
  scan_raised : option exn
}.

(** The first loop of [__iter]: every declaration is resolved; if its path
    is not visited yet it is marked visited and yielded, its manifest is
    loaded (an empty one if there is no file) and queued unless it equals
    the empty manifest.  An exception ends the loop. *)
Fixpoint scan (w : World) (self : t) (manifest : ManifestSpec.t) (refurl : option string)
    (specs : list ProjectSpec.t) (done : list string) : scanned :=
  match specs with
  | [] => mk_scanned [] done [] None
  | spec :: specs' =>
      match Project.from_spec (ManifestSpec.defaults manifest)
              (ManifestSpec.remotes manifest) spec refurl with
      | Raise e => mk_scanned [] done [] (Some e)
      | Ok dep =>
          if bool_decide (Project.path dep ∈ done) then
            scan w self manifest refurl specs' done
          else
            let done := done ++ [Project.path dep] in
            let dep_project_path :=
              joinpath (Workspace.path (workspace self)) (Project.path dep) in
            let dep_manifest_path := joinpath dep_project_path (Project.manifest_path dep) in
            match ManifestSpec.load (files w) dep_manifest_path (Some ManifestSpec.new) with
            | Raise e => mk_scanned [dep] done [] (Some e)
            | Ok dep_manifest =>
                let rest := scan w self manifest refurl specs' done in
                mk_scanned (dep :: scan_yielded rest) (scan_done rest)
                  (if bool_decide (dep_manifest ≠ ManifestSpec.new)
                   then (dep_project_path, dep_manifest) :: scan_deps rest
                   else scan_deps rest)
                  (scan_raised rest)
            end
      end
  end.

(** The reference URL of [__iter]: with [resolve_url], the URL of the clone
    at [project_path], which is asserted to exist. *)
Definition refurl_of (w : World) (self : t) (project_path : string)
    : result (option string) :=
  if resolve_url self then
    if Git.is_cloned w project_path then Ok (Git.get_url w project_path)
    else Raise AssertionError
  else Ok None.

(** [__iter]: scan the dependencies of the manifest, then descend into the
    queued ones.  [fuel] bounds the depth of the descent. *)
Fixpoint __iter (w : World) (self : t) (fuel : nat) (project_path : string)
    (manifest : ManifestSpec.t) (done : list string) : option (run Project.t) :=
  match fuel with
  | O => None
  | S fuel' =>
      match refurl_of w self project_path with
      | Raise e => Some (mk_run [] done (Some e))
      | Ok refurl =>
          let s := scan w self manifest refurl (ManifestSpec.dependencies manifest) done in
          match scan_raised s with
          | Some e => Some (mk_run (scan_yielded s) (scan_done s) (Some e))
          | None =>
              match yield_from_each
                      (fun '(dep_project_path, dep_manifest) =>
                         __iter w self fuel' dep_project_path dep_manifest)
                      (scan_deps s) (scan_done s) with
              | None => None
              | Some r =>
                  Some (mk_run (scan_yielded s ++ yielded r) (visited r) (raised r))
              end
          end
      end
  end.

(** The main project, yielded first unless [skip_main]. *)
Definition main (self : t) : list Project.t :=
  if skip_main self then []
  else
    let info := Workspace.info (workspace self) in
    [Project.init (path_name (Workspace.info_main_path info))
       (Workspace.info_main_path info)].

(** [__iter__], with a fresh visited list. *)
Definition __iter__ (w : World) (self : t) (fuel : nat) : option (run Project.t) :=
  match ManifestSpec.load (files w) (manifest_path self) (Some ManifestSpec.new) with
  | Raise e => Some (mk_run (main self) [] (Some e))
  | Ok manifest =>
      match __iter w self fuel (Workspace.main_path (workspace self)) manifest [] with
      | None => None
      | Some r => Some (mk_run (main self ++ yielded r) (visited r) (raised r))
      end
  end.
End ProjectIter.

End iters.

(** ** The repositories of the test fixtures *)

(** [repos]: the manifests the fixture saves below [repos_path]; [dep3],
    [dep4] and [dep5] have none. *)
Definition repos (repos_path : string) : gmap string text :=
  let save_in (name : string) (dependencies : list manifest.Project.t) :=
    manifest.Manifest.save
      (manifest.Manifest.mk (manifest.Manifest.main manifest.Manifest.new)
         manifest.Defaults.new [] dependencies)
      (joinpath (joinpath repos_path name) "anyrepo.toml") in
  save_in "dep2"
    [manifest.Project.mk "dep3" None None (Some "../dep3") None None;
     manifest.Project.mk "dep4" None None (Some "../dep4") None None]
    (save_in "dep1" [manifest.Project.mk "dep4" None None (Some "../dep4") None None]
       (save_in "main"
          [manifest.Project.mk "dep1" None None (Some "../dep1") None None;
           manifest.Project.mk "dep2" None None (Some "../dep2") (Some "1-feature") None]
          ∅)).

(** ** The vocabulary of the statements *)

(** An optional attribute holds a non-empty string. *)
Definition nonempty (x : option string) : Prop := ∃ s, x = Some s ∧ s ≠ "".

(** An optional attribute is [None] or the empty string. *)
Definition blank (x : option string) : Prop := x = None ∨ x = Some "".

(** The effective remote name of a declaration: its own [remote] if that is
    a non-empty string, else the default one. *)
Definition effective_remote (defaults : manifest.Defaults.t) (project : manifest.Project.t)
    (rn : string) : Prop :=
  rn ≠ "" ∧
  (manifest.Project.remote project = Some rn
   ∨ (blank (manifest.Project.remote project) ∧ manifest.Defaults.remote defaults = Some rn)).

(** [remote] is the first alias of the list that is called [rn]. *)
Definition first_alias (remotes : list manifest.Remote.t) (rn : string)
    (remote : manifest.Remote.t) : Prop :=
  ∃ before after,
    remotes = before ++ remote :: after
    ∧ manifest.Remote.name remote = rn
    ∧ Forall (λ other, manifest.Remote.name other ≠ rn) before.

(** No alias of the list is called [rn]. *)
Definition no_alias (remotes : list manifest.Remote.t) (rn : string) : Prop :=
  Forall (λ other, manifest.Remote.name other ≠ rn) remotes.

(** The sub-URL a declaration contributes: its [sub_url] if non-empty, else
    its name. *)
Definition sub_url_or_name (project : manifest.Project.t) (sub : string) : Prop :=
  (manifest.Project.sub_url project = Some sub ∧ sub ≠ "")
  ∨ (blank (manifest.Project.sub_url project) ∧ sub = manifest.Project.name project).

(** The path of a declaration: its [path] if non-empty, else its name. *)
Definition declared_path (spec : manifest.Project.t) : string :=
  py_or_str (manifest.Project.path spec) (manifest.Project.name spec).

(** The workspace of the scenario: the fixture's directory, with [main]
    as the main project. *)
Definition scenario_workspace : Workspace.t :=
  Workspace.mk "repos" "repos/main" (Workspace.mk_info "main").

Definition scenario_world : World := mkWorld (repos "repos") ∅.

(** What [load] makes of the text of an existing file. *)
Definition manifest_of (content : text) : result manifest.Manifest.t :=
  data ← yaml_load content;
  manifestdata ← match data with
                 | PDict d => Ok (default (PDict []) (dict_get d "manifest"))
                 | _ => Raise AttributeError
                 end;
  manifest.Manifest.init manifestdata.

(** The paths of the declarations of a manifest. *)
Definition declared (m : manifest.Manifest.t) : list string :=
  map declared_path (manifest.Manifest.projects m).

(** All paths declared by the manifest files of a store: the "distinct
    declared paths" of a manifest graph. *)
Definition declared_paths (fs : gmap string text) : gset string :=
  ⋃ (map (λ file : string * text,
            match manifest_of file.2 with
            | Ok m => list_to_set (declared m)
            | Raise _ => ∅
            end)
         (map_to_list fs)).


(** Where the walker looks for the manifest of the project at path [p]. *)
Definition manifest_location (root : string) (p : string) : string :=
  joinpath (joinpath root p) iters.MANIFEST_PATH.

(** The dependencies a manifest hands to the scan all carry the one
    manifest location. *)
Definition uniform (dependencies : list iters.Manifest.dependency) : Prop :=
  Forall (λ dep, iters.Manifest.project_manifest_path dep = iters.MANIFEST_PATH)
         dependencies.

(** What is queued for the path [q]. *)
Definition queued (root : string) (q : string) : string * string :=
  (joinpath root q, manifest_location root q).

(** What a run that ended without exception has covered: the manifest of
    every known or new path at which a file exists was yielded, the paths
    declared by these manifests are visited, and so are those declared by the
    run's own manifest, which was yielded first. *)
Definition manifest_covered (w : World) (root : string) (own : option string)
    (known new ps : list string)
    (r : run iters.Manifest.t) : Prop :=
  (∀ q, q ∈ known ∨ q ∈ new → is_Some (files w !! manifest_location root q) → q ∈ ps)
  ∧ (∀ q m spec,
       q ∈ known ∨ q ∈ new →
       manifest.Manifest.load (files w) (manifest_location root q) = Ok m →
       spec ∈ manifest.Manifest.projects m →
       declared_path spec ∈ visited r)
  ∧ (∀ mp, own = Some mp →
       map iters.Manifest.path (yielded r) = mp :: map (manifest_location root) ps
       ∧ ∀ m spec, manifest.Manifest.load (files w) mp = Ok m →
                   spec ∈ manifest.Manifest.projects m →
                   declared_path spec ∈ visited r).

(** What a run of the walker from the visited list [seen] has done: it
    appended new, distinct, declared paths, and the manifests it yielded,
    after the one at [own] if that was loaded, are those found at distinct
    paths among [known] and the new ones. *)
Definition manifest_run (w : World) (root : string) (own : option string)
    (known : list string) (seen : list string)
    (r : run iters.Manifest.t) : Prop :=
  ∃ new ps,
    visited r = seen ++ new
    ∧ NoDup new
    ∧ (∀ q, q ∈ new → (q ∉ seen) ∧ q ∈ declared_paths (files w))
    ∧ NoDup ps
    ∧ (∀ q, q ∈ ps → q ∈ known ∨ q ∈ new)
    ∧ (∀ q, q ∈ ps → is_Some (files w !! manifest_location root q))
    ∧ (map iters.Manifest.path (yielded r) = map (manifest_location root) ps
       ∨ ∃ mp, own = Some mp
               ∧ map iters.Manifest.path (yielded r)
                 = mp :: map (manifest_location root) ps)
    ∧ (raised r = None → manifest_covered w root own known new ps r).

(** The paths reachable through chains of declarations: those declared by
    the root manifest, and those declared by the manifest found at a
    reachable path. *)
Inductive reachable (w : World) (root manifest_path : string) : string → Prop :=
  | reachable_root m spec :
      iters.ManifestSpec.load (files w) manifest_path (Some iters.ManifestSpec.new) = Ok m →
      spec ∈ manifest.Manifest.projects m →
      reachable w root manifest_path (declared_path spec)
  | reachable_step p m spec :
      reachable w root manifest_path p →
      iters.ManifestSpec.load (files w) (manifest_location root p)
        (Some iters.ManifestSpec.new) = Ok m →
      spec ∈ manifest.Manifest.projects m →
      reachable w root manifest_path (declared_path spec).

(** Two manifests that declare each other's project. *)
Definition cyclic_world : World :=
  let declaring (name : string) :=
    manifest.Manifest.mk (manifest.Manifest.main manifest.Manifest.new)
      manifest.Defaults.new [] [manifest.Project.mk name None None None None None] in
  mkWorld
    (manifest.Manifest.save (declaring "main") "ws/dep1/anyrepo.toml"
       (manifest.Manifest.save (declaring "dep1") "ws/main/anyrepo.toml" ∅))
    ∅.

Definition cyclic_workspace : Workspace.t :=
  Workspace.mk "ws" "ws/main" (Workspace.mk_info "main").

(** The fixture's workspace with its clones, each cloned from below
    [https://example.com/base]. *)
Definition cloned_world : World :=
  mkWorld (repos "repos")
    (list_to_map
       [("repos/main", "https://example.com/base/main");
        ("repos/dep1", "https://example.com/base/dep1");
        ("repos/dep2", "https://example.com/base/dep2")]).

(** ** anyrepo/manifest.py: the project filter *)

(** An element of the list handed to [create_project_filter]: the annotation
    asks for [Path] objects, while the path of a project is a [str]. *)
Inductive path_or_str : Type :=
  | a_str (s : string)
  | a_path (s : string).

(** [x == e] for the path [x] of a project, a [str] or [None], and an
    element [e] of the list: a [str] equals a [str] with the same
    characters, and neither a [Path] object nor anything else. *)
Definition path_eq (x : option string) (e : path_or_str) : bool :=
  match x, e with
  | Some s, a_str s' => String.eqb s s'
  | _, _ => false
  end.

(** [create_project_filter]: with a non-empty list, the test [project.path
    in initialized_project_paths]; without a list, or with an empty one,
    the filter that lets everything pass. *)
Definition create_project_filter (project_paths : option (list path_or_str))
    : manifest.Project.t -> bool :=
  match project_paths with
  | Some ((_ :: _) as initialized_project_paths) =>
      fun project => existsb (path_eq (manifest.Project.path project))
                       initialized_project_paths
  | _ => fun _ => true
  end.

(** ** More vocabulary *)

(** The paths of a list that are not in the visited list, each at its first
    occurrence. *)
Fixpoint first_seen (seen : list string) (paths : list string) : list string :=
  match paths with
  | [] => []
  | p :: paths' =>
      if bool_decide (p ∈ seen) then first_seen seen paths'
      else p :: first_seen (seen ++ [p]) paths'
  end.

(** What the project walker queues for a dependency it has yielded: the
    directory of the dependency and its manifest, unless that is the empty
    one. *)
Definition project_queued (w : World) (root : string) (dep : iters.Project.t)
    : option (string * iters.ManifestSpec.t) :=
  match iters.ManifestSpec.load (files w) (manifest_location root (iters.Project.path dep))
          (Some iters.ManifestSpec.new) with
  | Ok dep_manifest =>
      if bool_decide (dep_manifest ≠ iters.ManifestSpec.new)
      then Some (joinpath root (iters.Project.path dep), dep_manifest)
      else None
  | Raise _ => None
  end.

(** A scheme: not empty, and without colon, slash, question mark or hash. *)
Definition is_scheme (s : string) : bool :=
  negb (String.eqb s "") && free_of ":/?#" s.

(** A host, with or without port: without slash, question mark or hash. *)
Definition is_host (s : string) : bool := free_of "/?#" s.

(** A plain path segment: not empty, no dot segment, and without colon,
    slash, question mark or hash. *)
Definition is_segment (s : string) : bool :=
  negb (String.eqb s "") && negb (String.eqb s ".") && negb (String.eqb s "..")
  && free_of ":/?#" s.

(** ** The traversals in the spec's words

    The spec (sections 4.4 and 4.5) describes the walkers by what they reach
    in document order: the declarations of a manifest in the order of the
    document, then the subtrees of the pending children in the order they
    were recorded, each exhausted before the next.  The definitions below
    follow these words, with an explicit stack of pending manifests (section
    9) in place of the recursion; the walkers of [iters.py] are compared
    with them. *)

(** What a result holds if it is no exception. *)
Definition ok_of {A} (r : result A) : option A :=
  match r with
  | Ok a => Some a
  | Raise _ => None
  end.

(** Following the spec's words (section 4.5, step 4, "if its path is already
    visited, skip; otherwise mark visited, yield it"): of the resolved
    declarations reached, in the order they are reached, those whose path
    was not visited before. *)
Fixpoint first_by_path (visited : list string) (reached : list iters.Project.t)
    : list iters.Project.t :=
  match reached with
  | [] => []
  | dep :: reached' =>
      if bool_decide (iters.Project.path dep ∈ visited) then first_by_path visited reached'
      else dep :: first_by_path (visited ++ [iters.Project.path dep]) reached'
  end.

(** Following the spec's words (section 4.5, step 4): "after first scanning
    all sibling declarations, attempt to load that dependant's own manifest
    (tolerating absence by substituting an empty manifest); if the loaded
    manifest is not equal to the canonical empty manifest, queue it for
    recursion". *)
Fixpoint spec_project_children (w : World) (root : string) (yields : list iters.Project.t)
    : option (list (string * iters.ManifestSpec.t)) :=
  match yields with
  | [] => Some []
  | dependant :: yields' =>
      dependant_manifest ←
        ok_of (iters.ManifestSpec.load (files w)
                 (manifest_location root (iters.Project.path dependant))
                 (Some iters.ManifestSpec.new));
      queue ← spec_project_children w root yields';
      Some (if bool_decide (dependant_manifest ≠ iters.ManifestSpec.new)
            then (joinpath root (iters.Project.path dependant), dependant_manifest) :: queue
            else queue)
  end.

(** What a traversal in the spec's words gives: what it reached, in
    document order, what it yielded, and the paths it visited. *)
Record spec_walked (R A : Type) : Type := mk_spec_walked {
  spec_reached : list R;
  spec_yielded : list A;
  spec_visited : list string
}.
Arguments mk_spec_walked {R A} spec_reached spec_yielded spec_visited.
Arguments spec_reached {R A} s.
Arguments spec_yielded {R A} s.
Arguments spec_visited {R A} s.

(** Following the spec's words (section 4.5, steps 3 to 5): the first
    pending manifest is taken; with the resolve-URL flag the URL of the clone
    at its project path is the reference URL; its declarations are resolved
    in document order; those that reach a path not visited before are
    yielded and marked; the children that have a manifest of their own are
    put before the rest of the pending ones, so that "a node's direct
    dependencies are all yielded before recursing into any of their
    sub-dependencies" and a child's subtree is exhausted before its next
    sibling's.  [steps] bounds the number of manifests taken; [None] when
    they do not suffice or anything fails. *)
Fixpoint spec_project_walk (w : World) (root : string) (resolve_url : bool) (steps : nat)
    (pending : list (string * iters.ManifestSpec.t)) (visited : list string)
    : option (spec_walked iters.Project.t iters.Project.t) :=
  match steps, pending with
  | _, [] => Some (mk_spec_walked [] [] visited)
  | O, _ :: _ => None
  | S steps', (project_path, manifest) :: pending' =>
      refurl ← (if resolve_url then
                  if Git.is_cloned w project_path then Some (Git.get_url w project_path)
                  else None
                else Some None);
      reached ← mapM (fun declaration =>
                        ok_of (iters.Project.from_spec (iters.ManifestSpec.defaults manifest)
                                 (iters.ManifestSpec.remotes manifest) declaration refurl))
                     (iters.ManifestSpec.dependencies manifest);
      let yields := first_by_path visited reached in
      children ← spec_project_children w root yields;
      below ← spec_project_walk w root resolve_url steps' (children ++ pending')
                (visited ++ map iters.Project.path yields);
      Some (mk_spec_walked (reached ++ spec_reached below) (yields ++ spec_yielded below)
              (spec_visited below))
  end.


(** A diamond: the root manifest declares [dep1] and [dep2], and both of
    them declare [dep4], each with a revision of its own. *)
Definition diamond_world : World :=
  let declaring (dependencies : list manifest.Project.t) :=
    manifest.Manifest.mk (manifest.Manifest.main manifest.Manifest.new)
      manifest.Defaults.new [] dependencies in
  mkWorld
    (manifest.Manifest.save
       (declaring [manifest.Project.mk "dep4" None None None (Some "from-dep2") None])
       "repos/dep2/anyrepo.toml"
       (manifest.Manifest.save
          (declaring [manifest.Project.mk "dep4" None None None (Some "from-dep1") None])
          "repos/dep1/anyrepo.toml"
          (manifest.Manifest.save
             (declaring [manifest.Project.mk "dep1" None None None None None;
                         manifest.Project.mk "dep2" None None None None None])
             "repos/main/anyrepo.toml" ∅)))
    ∅.

(** ** Declaration validation *)

Lemma truthy_spec (x : option string) :
  truthy x = true ↔ ∃ s, x = Some s ∧ s ≠ "".
Proof.
  destruct x as [s|]; simpl.
  - destruct (String.eqb_spec s ""); simpl; split; try naive_solver.
  - naive_solver.
Qed.

Lemma truthy_false (x : option string) :
  truthy x = false ↔ x = None ∨ x = Some "".
Proof.
  destruct x as [s|]; simpl.
  - destruct (String.eqb_spec s ""); simpl; split; naive_solver.
  - naive_solver.
Qed.

Lemma init_ok_iff name remote sub_url url revision path :
  is_ok (manifest.Project.init name remote sub_url url revision path) = true ↔
  ¬ (truthy remote = true ∧ truthy url = true)
  ∧ ¬ (truthy url = true ∧ truthy sub_url = true)
  ∧ ¬ (truthy sub_url = true ∧ truthy remote = false).
Proof.
  unfold manifest.Project.init, manifest.Project._remote_or_url; simpl.
  destruct (truthy remote), (truthy url), (truthy sub_url); simpl; split;
    try done; naive_solver.
Qed.

Lemma init_ok_value name remote sub_url url revision path p :
  manifest.Project.init name remote sub_url url revision path = Ok p →
  p = manifest.Project.mk name remote sub_url url revision path ∧ manifest.Project.valid p.
Proof.
  unfold manifest.Project.init, manifest.Project.valid.
  destruct (manifest.Project._remote_or_url _) as [v|[]] eqn:E; try done.
  intros [= <-]. revert E. unfold manifest.Project._remote_or_url; simpl.
  destruct (truthy remote) eqn:Hr, (truthy url) eqn:Hu, (truthy sub_url) eqn:Hs;
    simpl; try done; intros [= <-]; (split; [done|]);
    unfold manifest.Project._remote_or_url; simpl; by rewrite Hr, Hu, Hs.
Qed.

Lemma nonempty_or_blank (x : option string) : {nonempty x} + {blank x}.
Proof.
  destruct (truthy x) eqn:E.
  - left. by apply truthy_spec.
  - right. by apply truthy_false.
Qed.

Lemma blank_not_nonempty (x : option string) : blank x → ¬ nonempty x.
Proof. intros [->| ->] (s & [= <-] & ?); done. Qed.

(** C8, as the code has it.  With [sub_url] absent or empty, a declaration
    is accepted exactly when [remote] and [url] are not both non-empty; a
    non-empty [sub_url] with [remote] absent or empty is always refused; a
    non-empty [remote] together with a non-empty [url] is always
    refused. *)
Theorem remote_url_sub_url_rules name remote sub_url url revision path :
  let built := manifest.Project.init name remote sub_url url revision path in
  (blank sub_url →
     (built = Ok (manifest.Project.mk name remote sub_url url revision path)
      ↔ ¬ (nonempty remote ∧ nonempty url))
     ∧ (is_ok built = false ↔ nonempty remote ∧ nonempty url))
  ∧ (nonempty sub_url → blank remote → is_ok built = false)
  ∧ (nonempty remote → nonempty url → is_ok built = false).
Proof.
  intros built. subst built. unfold nonempty, blank.
  rewrite <- !truthy_spec. rewrite <- !truthy_false.
  unfold manifest.Project.init, manifest.Project._remote_or_url; simpl.
  destruct (truthy remote), (truthy url), (truthy sub_url); simpl;
    repeat split; intros; try done; naive_solver.
Qed.

Lemma remote_url_sub_url_rules_witness :
  is_ok (manifest.Project.init "dep1" None (Some "sub") None None None) = false
  ∧ is_ok (manifest.Project.init "dep1" (Some "origin") None
             (Some "https://example.com/dep1") None None)
    = false
  ∧ manifest.Project.init "dep1" (Some "origin") (Some "") None None None
    = Ok (manifest.Project.mk "dep1" (Some "origin") (Some "") None None None).
Proof.
  pose proof (remote_url_sub_url_rules "dep1" None (Some "sub") None None None) as (_ & H1 & _).
  pose proof (remote_url_sub_url_rules "dep1" (Some "origin") None
                (Some "https://example.com/dep1") None None) as (_ & _ & H2).
  pose proof (remote_url_sub_url_rules "dep1" (Some "origin") (Some "") None None None)
    as (H3 & _ & _).
  split; [|split].
  - apply H1; [by exists "sub" | by left].
  - apply H2; [by exists "origin" | by exists "https://example.com/dep1"].
  - apply H3; [by right |]. by intros [_ (s & [=] & _)].
Defined.

(** C8 as it is worded fails: [remote] set to the empty string and [url] set
    are "both set", yet the declaration is accepted; and [sub_url] set to the
    empty string without [remote] is accepted as well. *)
Lemma both_set_accepted :
  is_Some (Some "") ∧ is_Some (Some "https://example.com/dep1")
  ∧ manifest.Project.init "dep1" (Some "") None (Some "https://example.com/dep1") None None
    = Ok (manifest.Project.mk "dep1" (Some "") None (Some "https://example.com/dep1") None None)
  ∧ manifest.Project.init "dep1" None (Some "") None None None
    = Ok (manifest.Project.mk "dep1" None (Some "") None None None).
Proof. repeat split; by eexists. Qed.

(** C10.  Empty strings count as absent in the validator: [remote] empty
    with a non-empty [url] is accepted, [sub_url] empty without [remote] is
    accepted, and whenever a rule fires the attributes it names hold
    non-empty strings. *)
Theorem empty_string_counts_as_absent name remote sub_url url revision path :
  let built := manifest.Project.init name remote sub_url url revision path in
  (remote = Some "" → sub_url = None → nonempty url →
     built = Ok (manifest.Project.mk name remote sub_url url revision path))
  ∧ (sub_url = Some "" → remote = None →
     built = Ok (manifest.Project.mk name remote sub_url url revision path))
  ∧ (∀ e, built = Raise e →
       (e = ValidationError ["'remote' and 'url' are mutually exclusive"]
        ∧ nonempty remote ∧ nonempty url)
       ∨ (e = ValidationError ["'url' and 'sub-url' are mutually exclusive"]
          ∧ nonempty url ∧ nonempty sub_url)
       ∨ (e = ValidationError ["'sub-url' requires 'remote'"]
          ∧ nonempty sub_url ∧ blank remote)).
Proof.
  intros built. subst built.
  unfold manifest.Project.init, manifest.Project._remote_or_url; simpl.
  split; [|split].
  - intros -> -> Hu%truthy_spec. simpl. by rewrite Hu.
  - intros -> ->. simpl. by rewrite andb_false_r.
  - intros e.
    destruct (truthy remote) eqn:Hr, (truthy url) eqn:Hu, (truthy sub_url) eqn:Hs;
      simpl; intros [=]; subst;
      try apply truthy_spec in Hr; try apply truthy_spec in Hu;
      try apply truthy_spec in Hs; try apply truthy_false in Hr;
      unfold nonempty, blank; auto 10.
Qed.

Lemma empty_string_counts_as_absent_witness :
  manifest.Project.init "dep1" (Some "") None (Some "https://example.com/dep1") None None
  = Ok (manifest.Project.mk "dep1" (Some "") None (Some "https://example.com/dep1") None None)
  ∧ manifest.Project.init "dep1" None (Some "") None None None
    = Ok (manifest.Project.mk "dep1" None (Some "") None None None).
Proof.
  pose proof (empty_string_counts_as_absent "dep1" (Some "") None
                (Some "https://example.com/dep1") None None) as (H1 & _ & _).
  pose proof (empty_string_counts_as_absent "dep1" None (Some "") None None None)
    as (_ & H2 & _).
  split.
  - apply H1; [done | done | by exists "https://example.com/dep1"].
  - by apply H2.
Defined.

(** ** Resolution of a declaration *)

Lemma py_or_str_spec x y s :
  py_or_str x y = s ↔ (x = Some s ∧ s ≠ "") ∨ (blank x ∧ s = y).
Proof.
  unfold py_or_str, blank. destruct x as [x|].
  - destruct (String.eqb_spec x ""); naive_solver.
  - naive_solver.
Qed.

Lemma py_or_spec x y :
  (nonempty x ∧ py_or x y = x) ∨ (blank x ∧ py_or x y = y).
Proof.
  unfold py_or. destruct (truthy x) eqn:E.
  - left. split; [by apply truthy_spec | done].
  - right. split; [by apply truthy_false | done].
Qed.

Lemma effective_remote_py_or defaults project rn :
  effective_remote defaults project rn ↔
  py_or (manifest.Project.remote project) (manifest.Defaults.remote defaults) = Some rn
  ∧ rn ≠ "".
Proof.
  unfold effective_remote.
  destruct (py_or_spec (manifest.Project.remote project) (manifest.Defaults.remote defaults))
    as [[(s & Hs & Hne) ->] | [Hb ->]].
  - rewrite Hs. split.
    + intros (? & [[= ->] | [Hb _]]); [done |].
      destruct Hb as [Hb | Hb]; congruence.
    + intros ([= ->] & ?). auto.
  - split.
    + intros (? & [Hr | [_ ?]]); [| done].
      destruct Hb as [Hb | Hb]; rewrite Hb in Hr; congruence.
    + intros (? & ?). auto.
Qed.

Lemma find_alias_Some remotes rn remote :
  find (λ remote, bool_decide (Some (manifest.Remote.name remote) = Some rn)) remotes = Some remote
  ↔ first_alias remotes rn remote.
Proof.
  unfold first_alias. induction remotes as [|r remotes IH]; simpl.
  - split; [done |]. intros (before & after & E & _). by destruct before.
  - case_bool_decide as Hn.
    + split.
      * intros [= ->]. exists [], remotes. repeat split; [congruence | constructor].
      * intros (before & after & E & Hname & Hbefore).
        destruct before as [|b before]; simpl in E; injection E as -> E; [done |].
        apply Forall_cons in Hbefore as [Hb _]. congruence.
    + rewrite IH. split.
      * intros (before & after & -> & Hname & Hbefore).
        exists (r :: before), after. repeat split; [done |].
        constructor; [congruence | done].
      * intros (before & after & E & Hname & Hbefore).
        destruct before as [|b before]; simpl in E; injection E as -> E; [congruence |].
        apply Forall_cons in Hbefore as [_ Hbefore]. eauto.
Qed.

Lemma find_alias_None remotes rn :
  find (λ remote, bool_decide (Some (manifest.Remote.name remote) = Some rn)) remotes = None
  ↔ no_alias remotes rn.
Proof.
  unfold no_alias. induction remotes as [|r remotes IH]; simpl.
  - split; [constructor | done].
  - case_bool_decide as Hn.
    + split; [done |]. intros [Hr _]%Forall_cons. congruence.
    + rewrite IH. split.
      * intros ?. constructor; [congruence | done].
      * by intros [_ ?]%Forall_cons.
Qed.

Lemma first_alias_or_none remotes rn :
  (∃ remote, first_alias remotes rn remote) ∨ no_alias remotes rn.
Proof.
  destruct (find (λ remote, bool_decide (Some (manifest.Remote.name remote) = Some rn)) remotes)
    as [remote|] eqn:E.
  - left. exists remote. by apply find_alias_Some.
  - right. by apply find_alias_None.
Qed.

(** The constructor call at the end of [from_project] cannot fail: the
    inherited validator sees neither [remote] nor [sub_url]. *)
Lemma resolved_init_ok name path url revision :
  manifest.ResolvedProject.init name path url revision
  = Ok (manifest.ResolvedProject.mk name None None url revision path None).
Proof.
  unfold manifest.ResolvedProject.init, manifest.Project._remote_or_url; simpl.
  by rewrite andb_false_r.
Qed.

(** [from_project] by cases on the declaration. *)
Lemma from_project_own_url defaults remotes project :
  nonempty (manifest.Project.url project) →
  manifest.ResolvedProject.from_project defaults remotes project
  = Ok (manifest.ResolvedProject.mk (manifest.Project.name project) None None
          (manifest.Project.url project)
          (py_or (manifest.Project.revision project) (manifest.Defaults.revision defaults))
          (py_or_str (manifest.Project.path project) (manifest.Project.name project)) None).
Proof.
  intros Hu%truthy_spec. unfold manifest.ResolvedProject.from_project.
  rewrite Hu; simpl. apply resolved_init_ok.
Qed.

Lemma from_project_no_remote defaults remotes project :
  blank (manifest.Project.url project) →
  blank (py_or (manifest.Project.remote project) (manifest.Defaults.remote defaults)) →
  manifest.ResolvedProject.from_project defaults remotes project
  = Ok (manifest.ResolvedProject.mk (manifest.Project.name project) None None
          (manifest.Project.url project)
          (py_or (manifest.Project.revision project) (manifest.Defaults.revision defaults))
          (py_or_str (manifest.Project.path project) (manifest.Project.name project)) None).
Proof.
  intros Hu%truthy_false Hr%truthy_false. unfold manifest.ResolvedProject.from_project.
  rewrite Hu, Hr; simpl. apply resolved_init_ok.
Qed.

Lemma from_project_remote defaults remotes project rn :
  blank (manifest.Project.url project) →
  effective_remote defaults project rn →
  manifest.ResolvedProject.from_project defaults remotes project
  = match find (λ remote, bool_decide (Some (manifest.Remote.name remote) = Some rn)) remotes with
    | Some remote =>
        Ok (manifest.ResolvedProject.mk (manifest.Project.name project) None None
              (Some (py_str (manifest.Remote.url_base remote) +:+ "/"
                     +:+ py_or_str (manifest.Project.sub_url project)
                           (manifest.Project.name project)))
              (py_or (manifest.Project.revision project) (manifest.Defaults.revision defaults))
              (py_or_str (manifest.Project.path project) (manifest.Project.name project)) None)
    | None =>
        Raise (ValueError ("Unknown remote " +:+ py_str (manifest.Project.remote project)
                           +:+ " for project " +:+ manifest.Project.name project))
    end.
Proof.
  intros Hu%truthy_false [Hr Hne]%effective_remote_py_or.
  unfold manifest.ResolvedProject.from_project. rewrite Hu, Hr; simpl.
  destruct (String.eqb_spec rn ""); [done |]; simpl.
  destruct (find _ remotes); simpl; [apply resolved_init_ok | done].
Qed.

(** C4, as the code has it.  A resolved project keeps the declaration's
    name; its path is the declaration's path if that is a non-empty string,
    else the name; its revision is the declaration's if non-empty, else the
    default one; a non-empty URL of the declaration is kept; and without
    one, the URL is [url_base], a slash and the sub-URL-or-name, taken from
    the first alias called like the effective remote (here for an alias
    whose [url_base] is set). *)
Theorem from_project_resolves defaults remotes project r :
  manifest.ResolvedProject.from_project defaults remotes project = Ok r →
  manifest.ResolvedProject.name r = manifest.Project.name project
  ∧ (∀ p, manifest.Project.path project = Some p → p ≠ "" →
          manifest.ResolvedProject.path r = p)
  ∧ (blank (manifest.Project.path project) →
     manifest.ResolvedProject.path r = manifest.Project.name project)
  ∧ (∀ v, manifest.Project.revision project = Some v → v ≠ "" →
       manifest.ResolvedProject.revision r = Some v)
  ∧ (blank (manifest.Project.revision project) →
       manifest.ResolvedProject.revision r = manifest.Defaults.revision defaults)
  ∧ (nonempty (manifest.Project.url project) →
     manifest.ResolvedProject.url r = manifest.Project.url project)
  ∧ (blank (manifest.Project.url project) →
     ∀ rn remote base sub,
       effective_remote defaults project rn →
       first_alias remotes rn remote →
       manifest.Remote.url_base remote = Some base →
       sub_url_or_name project sub →
       manifest.ResolvedProject.url r = Some (base +:+ "/" +:+ sub)).
Proof.
  intros Hr.
  assert (manifest.ResolvedProject.name r = manifest.Project.name project
          ∧ manifest.ResolvedProject.path r
            = py_or_str (manifest.Project.path project) (manifest.Project.name project)
          ∧ manifest.ResolvedProject.revision r
            = py_or (manifest.Project.revision project) (manifest.Defaults.revision defaults))
    as (Hname & Hpath & Hrev).
  { revert Hr. unfold manifest.ResolvedProject.from_project.
    destruct (if negb (truthy (manifest.Project.url project)) then _ else _) as [u|e]; simpl;
      [| done].
    rewrite resolved_init_ok. by intros [= <-]. }
  split; [done |]. split; [| split; [| split; [| split; [| split]]]].
  - intros p Hp Hne. rewrite Hpath. apply py_or_str_spec. auto.
  - intros Hb. rewrite Hpath. apply py_or_str_spec. auto.
  - intros v Hv Hne. rewrite Hrev.
    destruct (py_or_spec (manifest.Project.revision project) (manifest.Defaults.revision defaults))
      as [[_ ->] | [Hb _]]; [done |].
    destruct Hb as [Hb | Hb]; rewrite Hb in Hv; congruence.
  - intros Hb. rewrite Hrev.
    destruct (py_or_spec (manifest.Project.revision project) (manifest.Defaults.revision defaults))
      as [[Hn _] | [_ ->]]; [| done].
    by destruct (blank_not_nonempty _ Hb).
  - intros Hu. rewrite (from_project_own_url _ _ _ Hu) in Hr. by injection Hr as <-.
  - intros Hu rn remote base sub Heff Hfirst Hbase Hsub.
    rewrite (from_project_remote _ _ _ rn Hu Heff) in Hr.
    apply find_alias_Some in Hfirst. rewrite Hfirst in Hr. injection Hr as <-; simpl.
    rewrite Hbase; simpl. do 3 f_equal. apply py_or_str_spec.
    destruct Hsub as [[? ?] | [? ->]]; auto.
Qed.

Lemma from_project_resolves_witness :
  let origin := manifest.Remote.mk "origin" (Some "https://example.com/base") in
  let project := manifest.Project.mk "dep1" (Some "origin") None None None None in
  ∃ r, manifest.ResolvedProject.from_project manifest.Defaults.new [origin] project = Ok r
       ∧ manifest.ResolvedProject.url r = Some "https://example.com/base/dep1"
       ∧ manifest.ResolvedProject.path r = "dep1"
       ∧ manifest.ResolvedProject.revision r = None.
Proof.
  intros origin project. eexists. split; [reflexivity |].
  pose proof (from_project_resolves manifest.Defaults.new [origin] project _ eq_refl)
    as (_ & _ & Hpath & _ & Hrev & _ & Hurl).
  split; [| split].
  - apply (Hurl (or_introl eq_refl) "origin" origin "https://example.com/base" "dep1").
    + split; [done |]. by left.
    + exists [], []. repeat split. constructor.
    + done.
    + right. split; [by left | done].
  - apply Hpath. by left.
  - apply Hrev. by left.
Defined.

(** C4 as it is worded fails on a declaration whose [path] (or [revision])
    is set to the empty string: the resolved path is the name, the resolved
    revision the default one. *)
Lemma path_set_to_empty_is_dropped :
  let project := manifest.Project.mk "dep1" None None None (Some "") (Some "") in
  manifest.Project.valid project
  ∧ manifest.Project.path project = Some "" ∧ manifest.Project.revision project = Some ""
  ∧ ∃ r, manifest.ResolvedProject.from_project (manifest.Defaults.mk None (Some "main")) []
           project = Ok r
         ∧ manifest.ResolvedProject.path r = "dep1"
         ∧ manifest.ResolvedProject.revision r = Some "main".
Proof. repeat split. eexists. repeat split. Qed.

(** What the f-string makes of an alias without [url_base]. *)
Lemma from_project_without_url_base :
  manifest.ResolvedProject.from_project manifest.Defaults.new [manifest.Remote.mk "origin" None]
    (manifest.Project.mk "dep1" (Some "origin") None None None None)
  = Ok (manifest.ResolvedProject.mk "dep1" None None (Some "None/dep1") None "dep1" None).
Proof. reflexivity. Qed.

(** C5, as the code has it.  For a declaration without a non-empty URL whose
    effective remote is a non-empty name: if no alias has that name,
    resolution raises a [ValueError] whose message ends in the project name,
    and names the remote when it is the declaration's own; if an alias has
    that name, resolution succeeds. *)
Theorem unknown_remote_raises defaults remotes project rn :
  blank (manifest.Project.url project) →
  effective_remote defaults project rn →
  (no_alias remotes rn →
     ∃ msg, manifest.ResolvedProject.from_project defaults remotes project
            = Raise (ValueError msg)
       ∧ (∃ prefix, msg = prefix +:+ " for project " +:+ manifest.Project.name project)
       ∧ (manifest.Project.remote project = Some rn →
            msg = "Unknown remote " +:+ rn +:+ " for project " +:+ manifest.Project.name project))
  ∧ (∀ remote, first_alias remotes rn remote →
       is_ok (manifest.ResolvedProject.from_project defaults remotes project) = true).
Proof.
  intros Hu Heff. rewrite (from_project_remote _ _ _ rn Hu Heff). split.
  - intros ->%find_alias_None. eexists. split; [done |]. split.
    + by exists ("Unknown remote " +:+ py_str (manifest.Project.remote project)).
    + by intros ->.
  - by intros remote ->%find_alias_Some.
Qed.

Lemma unknown_remote_raises_witness :
  manifest.ResolvedProject.from_project manifest.Defaults.new
    [manifest.Remote.mk "origin" (Some "https://example.com/base")]
    (manifest.Project.mk "dep1" (Some "upstream") None None None None)
  = Raise (ValueError "Unknown remote upstream for project dep1").
Proof.
  destruct (unknown_remote_raises manifest.Defaults.new
              [manifest.Remote.mk "origin" (Some "https://example.com/base")]
              (manifest.Project.mk "dep1" (Some "upstream") None None None None) "upstream")
    as [Hraise _].
  - by left.
  - split; [done |]. by left.
  - destruct Hraise as (msg & -> & _ & Hmsg).
    + repeat constructor; done.
    + by rewrite Hmsg.
Defined.

(** C5 as it is worded fails on a declaration whose [remote] is set to the
    empty string: no alias is called like that, yet resolution succeeds and
    leaves the URL unset. *)
Lemma empty_remote_name_is_no_remote :
  let project := manifest.Project.mk "dep1" (Some "") None None None None in
  manifest.Project.valid project
  ∧ manifest.Project.url project = None ∧ manifest.Project.remote project = Some ""
  ∧ no_alias [] ""
  ∧ manifest.ResolvedProject.from_project manifest.Defaults.new [] project
    = Ok (manifest.ResolvedProject.mk "dep1" None None None None "dep1" None).
Proof. repeat split. constructor. Qed.

(** The message is formatted with the declaration's own [remote], also when
    the unknown name came from the defaults. *)
Lemma unknown_default_remote_message :
  manifest.ResolvedProject.from_project (manifest.Defaults.mk (Some "origin") None) []
    (manifest.Project.mk "dep1" None None None None None)
  = Raise (ValueError "Unknown remote None for project dep1").
Proof. reflexivity. Qed.

(** Resolution raises in no other situation. *)
Lemma from_project_raises_only_unknown_remote defaults remotes project e :
  manifest.ResolvedProject.from_project defaults remotes project = Raise e →
  blank (manifest.Project.url project)
  ∧ ∃ rn, effective_remote defaults project rn ∧ no_alias remotes rn.
Proof.
  intros Hr. destruct (nonempty_or_blank (manifest.Project.url project)) as [Hu | Hu].
  { by rewrite from_project_own_url in Hr. }
  split; [done |].
  destruct (py_or_spec (manifest.Project.remote project) (manifest.Defaults.remote defaults))
    as [[Hn E] | [Hb E]].
  - destruct Hn as (rn & Hrn & Hne). exists rn.
    assert (effective_remote defaults project rn) as Heff by (split; auto).
    split; [done |]. rewrite (from_project_remote _ _ _ rn Hu Heff) in Hr.
    apply find_alias_None. by destruct (find _ remotes).
  - destruct (nonempty_or_blank (manifest.Defaults.remote defaults)) as [(rn & Hrn & Hne) | Hd].
    + exists rn. assert (effective_remote defaults project rn) as Heff by (split; auto).
      split; [done |]. rewrite (from_project_remote _ _ _ rn Hu Heff) in Hr.
      apply find_alias_None. by destruct (find _ remotes).
    + rewrite from_project_no_remote in Hr; [done | done |]. by rewrite E.
Qed.

(** ** Loading and saving a manifest *)

Lemma remote_validate_dict (r : manifest.Remote.t) :
  manifest.RemoteData.validate (manifest.RemoteData.dict r) = inr r.
Proof. by destruct r as [name [base|]]. Qed.

Lemma defaults_validate_dict (d : manifest.Defaults.t) :
  manifest.DefaultsData.validate (manifest.DefaultsData.dict d) = inr d.
Proof. by destruct d as [[remote|] [revision|]]. Qed.

Lemma project_validate_dict (p : manifest.Project.t) :
  manifest.Project.valid p → manifest.ProjectData.validate (manifest.ProjectData.dict p) = inr p.
Proof.
  unfold manifest.Project.valid. intros Hvalid. unfold manifest.ProjectData.validate.
  assert (required_str (dict_get (manifest.ProjectData.dict p) "name")
          = inr (manifest.Project.name p)) as ->
    by done.
  assert (optional_str (dict_get (manifest.ProjectData.dict p) "remote")
          = inr (manifest.Project.remote p))
    as -> by (by destruct p as [name [remote|] [sub_url|] [url|] [revision|] [path|]]).
  assert (optional_str (by_alias (manifest.ProjectData.dict p) "sub-url" "sub_url")
          = inr (manifest.Project.sub_url p))
    as -> by (by destruct p as [name [remote|] [sub_url|] [url|] [revision|] [path|]]).
  assert (optional_str (dict_get (manifest.ProjectData.dict p) "url")
          = inr (manifest.Project.url p))
    as -> by (by destruct p as [name [remote|] [sub_url|] [url|] [revision|] [path|]]).
  assert (optional_str (dict_get (manifest.ProjectData.dict p) "revision")
          = inr (manifest.Project.revision p))
    as -> by (by destruct p as [name [remote|] [sub_url|] [url|] [revision|] [path|]]).
  assert (optional_str (dict_get (manifest.ProjectData.dict p) "path")
          = inr (manifest.Project.path p))
    as -> by (by destruct p as [name [remote|] [sub_url|] [url|] [revision|] [path|]]).
  cbn [value_of errors_of default from_option app].
  destruct p as [name remote sub_url url revision path];
    cbn [manifest.Project.name manifest.Project.remote manifest.Project.sub_url
         manifest.Project.url manifest.Project.revision manifest.Project.path] in *.
  unfold id. by rewrite Hvalid.
Qed.

Lemma validated_inr {A} (errors : list string) (a b : A) :
  validated errors a = inr b → errors = [] ∧ a = b.
Proof. destruct errors; simpl; [by intros [= ->] | done]. Qed.

Lemma remote_or_url_ok values v :
  manifest.Project._remote_or_url values = Ok v → v = values.
Proof.
  unfold manifest.Project._remote_or_url.
  destruct (truthy _ && truthy _); [done |].
  destruct (truthy _ && truthy _); [done |].
  destruct (truthy _ && negb _); [done |]. by intros [= <-].
Qed.

Lemma remote_or_url_raise values e :
  manifest.Project._remote_or_url values = Raise e → ∃ msg, e = ValueError msg.
Proof.
  unfold manifest.Project._remote_or_url.
  destruct (truthy _ && truthy _); [intros [= <-]; eauto |].
  destruct (truthy _ && truthy _); [intros [= <-]; eauto |].
  destruct (truthy _ && negb _); [intros [= <-]; eauto | done].
Qed.

(** A declaration that comes out of the validation satisfies the class
    invariant. *)
Lemma project_validate_valid d p :
  manifest.ProjectData.validate d = inr p → manifest.Project.valid p.
Proof.
  unfold manifest.ProjectData.validate, manifest.Project.valid.
  set (values := manifest.Project.mk _ _ _ _ _ _).
  intros [Herr <-]%validated_inr.
  destruct (manifest.Project._remote_or_url values) as [v|e] eqn:E.
  - by rewrite (remote_or_url_ok _ _ E).
  - destruct (remote_or_url_raise _ _ E) as [msg ->]. exfalso.
    apply (f_equal length) in Herr. rewrite !length_app in Herr. simpl in Herr. lia.
Qed.

Lemma list_items_map {A} (validate : list (string * pyval) → field A)
    (dict : A → list (string * pyval)) (P : A → Prop) (l : list A) :
  (∀ a, P a → validate (dict a) = inr a) →
  Forall P l →
  list_items validate (map (λ a, PDict (dict a)) l) = inr l.
Proof.
  intros Hrt. induction 1 as [|a l Ha _ IH]; simpl; [done |].
  by rewrite (Hrt a Ha), IH.
Qed.

Lemma manifest_validate_dict (m : manifest.Manifest.t) :
  manifest.Manifest.valid m → manifest.Manifest.validate (manifest.Manifest.dict m) = inr m.
Proof.
  intros [Hmain Hprojects]. destruct m as [main defaults remotes projects].
  unfold manifest.Manifest.validate; simpl in *.
  rewrite (project_validate_dict _ Hmain), defaults_validate_dict.
  rewrite (list_items_map manifest.RemoteData.validate manifest.RemoteData.dict (λ _, True));
    [| by intros; apply remote_validate_dict | by apply Forall_true].
  by rewrite (list_items_map manifest.ProjectData.validate manifest.ProjectData.dict
                manifest.Project.valid);
    [| apply project_validate_dict |].
Qed.

(** C7.  A manifest whose declarations satisfy the class invariant, saved to
    a path and loaded from it again, comes back as it was: every attribute
    is reproduced (unset attributes were left out of the file and are unset
    again after loading). *)
Theorem load_save_roundtrip (m : manifest.Manifest.t) (path : string) (fs : gmap string text) :
  manifest.Manifest.valid m →
  manifest.Manifest.load (manifest.Manifest.save m path fs) path = Ok m.
Proof.
  intros Hvalid. unfold manifest.Manifest.load, manifest.Manifest.save.
  rewrite lookup_insert_eq; simpl.
  by rewrite (manifest_validate_dict m Hvalid).
Qed.

Lemma load_save_roundtrip_witness :
  let m := manifest.Manifest.mk (manifest.Project.mk "main" None None None None None)
             (manifest.Defaults.mk (Some "origin") None)
             [manifest.Remote.mk "origin" (Some "https://example.com/base")]
             [manifest.Project.mk "dep1" None None (Some "../dep1") None None;
              manifest.Project.mk "dep2" (Some "origin") (Some "dep2.git") None (Some "1-feature")
                (Some "libs/dep2")] in
  manifest.Manifest.load (manifest.Manifest.save m "main/anyrepo.toml" ∅) "main/anyrepo.toml"
  = Ok m.
Proof.
  intros m. apply load_save_roundtrip.
  split; [done |]. repeat constructor.
Defined.

(** The file does not exist: [ManifestNotFoundError] with the path. *)
Lemma load_missing_file (fs : gmap string text) (path : string) :
  fs !! path = None → manifest.Manifest.load fs path = Raise (ManifestNotFoundError path).
Proof. intros E. unfold manifest.Manifest.load. by rewrite E. Qed.

(** The file exists: what [load] does is decided by its content alone, and
    it does not raise [ManifestNotFoundError]. *)
Lemma load_existing_file (fs : gmap string text) (path : string) (content : text) :
  fs !! path = Some content →
  manifest.Manifest.load fs path
  = (data ← yaml_load content;
     manifestdata ← match data with
                    | PDict d => Ok (default (PDict []) (dict_get d "manifest"))
                    | _ => Raise AttributeError
                    end;
     manifest.Manifest.init manifestdata).
Proof. intros E. unfold manifest.Manifest.load. by rewrite E. Qed.

(** [load] has no handler around parsing and validation: whatever PyYAML or
    pydantic raise leaves it as it is, and [ManifestError] is never
    raised. *)
Lemma load_never_raises_ManifestError (fs : gmap string text) (path : string) p details :
  manifest.Manifest.load fs path ≠ Raise (ManifestError p details).
Proof.
  unfold manifest.Manifest.load. destruct (fs !! path) as [[|data]|]; simpl; try done.
  destruct data as [| | | | |d]; simpl; try done.
  destruct (default (PDict []) (dict_get d "manifest")) as [| | | | |d']; simpl; try done.
  by destruct (manifest.Manifest.validate d').
Qed.

(** C6 at a failing input.  A manifest file that declares a project with both
    [remote] and [url]: [load] lets pydantic's [ValidationError] through, it
    does not raise [ManifestError]; a file PyYAML cannot parse gives
    [YAMLError], an empty one [AttributeError]. *)
Theorem load_broken_manifest :
  let broken :=
    Denotes (PDict [("manifest", PDict [("projects", PList [PDict
      [("name", PStr "dep1"); ("remote", PStr "origin");
       ("url", PStr "https://example.com/dep1")]])])]) in
  manifest.Manifest.load {[ "anyrepo.toml" := broken ]} "anyrepo.toml"
  = Raise (ValidationError ["'remote' and 'url' are mutually exclusive"])
  ∧ manifest.Manifest.load {[ "anyrepo.toml" := Unparsable ]} "anyrepo.toml" = Raise YAMLError
  ∧ manifest.Manifest.load {[ "anyrepo.toml" := Denotes PNone ]} "anyrepo.toml"
    = Raise AttributeError.
Proof. repeat split; by vm_compute. Qed.

(** ** Resolution against a reference URL *)

(** [from_spec] agrees with [from_project] on everything but the URL, and
    raises what [from_project] raises. *)
Lemma from_spec_from_project defaults remotes spec refurl :
  iters.Project.from_spec defaults remotes spec refurl
  = match manifest.ResolvedProject.from_project defaults remotes spec with
    | Ok resolved =>
        Ok (iters.Project.mk (manifest.ResolvedProject.name resolved)
              (manifest.ResolvedProject.path resolved)
              match refurl, manifest.ResolvedProject.url resolved with
              | Some refurl, Some url =>
                  Some (if is_relative url then urljoin refurl url else url)
              | _, url => url
              end
              (manifest.ResolvedProject.revision resolved) iters.MANIFEST_PATH)
    | Raise e => Raise e
    end.
Proof.
  unfold iters.Project.from_spec.
  by destruct (manifest.ResolvedProject.from_project defaults remotes spec).
Qed.

Lemma from_project_path defaults remotes spec resolved :
  manifest.ResolvedProject.from_project defaults remotes spec = Ok resolved →
  manifest.ResolvedProject.path resolved = declared_path spec.
Proof.
  unfold manifest.ResolvedProject.from_project.
  destruct (if negb (truthy (manifest.Project.url spec)) then _ else _) as [u|e]; simpl;
    [| done].
  rewrite resolved_init_ok. by intros [= <-].
Qed.

Lemma from_spec_path defaults remotes spec refurl dep :
  iters.Project.from_spec defaults remotes spec refurl = Ok dep →
  iters.Project.path dep = declared_path spec
  ∧ iters.Project.manifest_path dep = iters.MANIFEST_PATH.
Proof.
  rewrite from_spec_from_project.
  destruct (manifest.ResolvedProject.from_project defaults remotes spec) as [resolved|]
    eqn:E; [| done].
  intros [= <-]; simpl. split; [by eapply from_project_path | done].
Qed.

(** ** The URL join *)

Lemma string_app_cons c (s t : string) : String c s +:+ t = String c (s +:+ t).
Proof. reflexivity. Qed.

Lemma string_app_nil_r (s : string) : s +:+ "" = s.
Proof. induction s as [|c s IH]; [reflexivity |]. by rewrite string_app_cons, IH. Qed.

Lemma string_app_assoc (a b c : string) : (a +:+ b) +:+ c = a +:+ b +:+ c.
Proof. induction a as [|x a IH]; [reflexivity |]. by rewrite !string_app_cons, IH. Qed.

Lemma free_of_cons chars c s :
  free_of chars (String c s) = negb (one_of chars c) && free_of chars s.
Proof. reflexivity. Qed.

Lemma free_of_app chars (a b : string) :
  free_of chars (a +:+ b) = free_of chars a && free_of chars b.
Proof.
  induction a as [|c a IH]; [reflexivity |].
  by rewrite string_app_cons, !free_of_cons, IH, andb_assoc.
Qed.

Lemma free_of_weaken chars chars' s :
  (∀ c, one_of chars' c = true → one_of chars c = true) →
  free_of chars s = true → free_of chars' s = true.
Proof.
  intros Hsub. induction s as [|c s IH]; [by idtac |].
  rewrite !free_of_cons, !andb_true_iff, !negb_true_iff. intros [Hc Hs].
  split; [| by apply IH]. destruct (one_of chars' c) eqn:E; [| by idtac].
  apply Hsub in E. congruence.
Qed.

Lemma one_of_sub (chars chars' : string) :
  forallb (one_of chars) (String.list_ascii_of_string chars') = true →
  ∀ c, one_of chars' c = true → one_of chars c = true.
Proof.
  intros Hall c. unfold one_of at 1. rewrite existsb_exists.
  intros (x & Hx & ->%Ascii.eqb_eq). rewrite forallb_forall in Hall. by apply Hall.
Qed.

Lemma break_spec stop s before rest :
  break stop s = (before, rest) → s = before +:+ rest.
Proof.
  revert before rest. induction s as [|c s IH]; intros before rest; simpl.
  - by intros [= <- <-].
  - destruct (stop c); [by intros [= <- <-] |].
    destruct (break stop s) as [before' rest']. intros [= <- <-].
    by rewrite string_app_cons, <- (IH before' rest').
Qed.

Lemma break_app chars (a b : string) :
  free_of chars a = true →
  b = "" ∨ (∃ c b', b = String c b' ∧ one_of chars c = true) →
  break (one_of chars) (a +:+ b) = (a, b).
Proof.
  intros Ha Hb. induction a as [|x a IH].
  - destruct Hb as [-> | (c & b' & -> & Hc)]; [by idtac |]. simpl.
    change ("" +:+ String c b') with (String c b'). simpl. by rewrite Hc.
  - rewrite free_of_cons, andb_true_iff, negb_true_iff in Ha. destruct Ha as [Hx Ha].
    rewrite string_app_cons; simpl. by rewrite Hx, (IH Ha).
Qed.

Lemma break_free chars (s : string) :
  free_of chars s = true → break (one_of chars) s = (s, "").
Proof.
  intros Hs. rewrite <- (string_app_nil_r s) at 1. apply break_app; by auto.
Qed.

Lemma strip_prefix_app (prefix s : string) : strip_prefix prefix (prefix +:+ s) = Some s.
Proof.
  induction prefix as [|c prefix IH]; [by destruct s |].
  rewrite string_app_cons; simpl. by rewrite Ascii.eqb_refl.
Qed.

Lemma strip_prefix_spec (prefix s rest : string) :
  strip_prefix prefix s = Some rest → s = prefix +:+ rest.
Proof.
  revert s. induction prefix as [|c prefix IH]; intros s; simpl.
  - destruct s; by intros [= <-].
  - destruct s as [|b s]; [by idtac |].
    destruct (Ascii.eqb c b) eqn:E; [| by idtac]. apply Ascii.eqb_eq in E as <-.
    intros ->%IH. by rewrite string_app_cons.
Qed.

(** A URL without colon has no scheme. *)
Lemma urlsplit_scheme_none (url : string) :
  free_of ":" url = true → url_scheme (urlsplit url) = None.
Proof.
  intros Hfree. unfold urlsplit.
  destruct (break (one_of ":/?#") url) as [before rest] eqn:Hbreak.
  destruct (strip_prefix ":" rest) as [rest'|] eqn:Hstrip.
  - apply strip_prefix_spec in Hstrip as ->. apply break_spec in Hbreak as ->.
    rewrite free_of_app, andb_true_iff in Hfree. by destruct Hfree as [_ Hfree].
  - repeat (match goal with
            | |- context [let '(_, _) := ?x in _] => destruct x
            | |- context [match ?x with Some _ => _ | None => _ end] => destruct x
            end); by idtac.
Qed.

(** What begins with a scheme and a colon has that scheme. *)
Lemma urlsplit_scheme_some (scheme rest : string) :
  is_scheme scheme = true →
  url_scheme (urlsplit (scheme +:+ ":" +:+ rest)) = Some scheme.
Proof.
  unfold is_scheme. rewrite andb_true_iff, negb_true_iff. intros [Hne Hfree].
  unfold urlsplit. rewrite (break_app ":/?#" scheme (":" +:+ rest) Hfree);
    [| right; by exists ":"%char, rest].
  rewrite strip_prefix_app, Hne.
  repeat (match goal with
          | |- context [let '(_, _) := ?x in _] => destruct x
          | |- context [match ?x with Some _ => _ | None => _ end] => destruct x
          end); by idtac.
Qed.

(** A path without colon, question mark or hash that does not begin with a
    slash is a reference that has nothing but this path. *)
Lemma urlsplit_relative_path c (url : string) :
  Ascii.eqb "/" c = false →
  free_of ":?#" (String c url) = true →
  urlsplit (String c url) = mk_url None None (String c url) None None.
Proof.
  intros Hc Hfree. unfold urlsplit.
  destruct (break (one_of ":/?#") (String c url)) as [before rest] eqn:Hbreak.
  assert ((let '(before, rest) := (before, rest) in
           match strip_prefix ":" rest with
           | Some rest' =>
               if String.eqb before "" then (None, String c url) else (Some before, rest')
           | None => (None, String c url)
           end) = (None, String c url)) as ->.
  { destruct (strip_prefix ":" rest) as [rest'|] eqn:Hstrip; [| by idtac].
    apply strip_prefix_spec in Hstrip as ->. apply break_spec in Hbreak.
    rewrite Hbreak, free_of_app, andb_true_iff in Hfree. by destruct Hfree as [_ Hfree]. }
  cbn [strip_prefix]. rewrite Hc.
  rewrite (break_free "?#" (String c url)); [by idtac |].
  revert Hfree. apply free_of_weaken, one_of_sub. reflexivity.
Qed.

(** A reference URL with scheme, host and a path without question mark or
    hash. *)
Lemma urlsplit_absolute (scheme host path : string) :
  is_scheme scheme = true →
  is_host host = true →
  free_of "?#" path = true →
  urlsplit (scheme +:+ "://" +:+ host +:+ "/" +:+ path)
  = mk_url (Some scheme) (Some host) ("/" +:+ path) None None.
Proof.
  unfold is_scheme, is_host. rewrite andb_true_iff, negb_true_iff.
  intros [Hne Hscheme] Hhost Hpath. unfold urlsplit.
  rewrite (break_app ":/?#" scheme ("://" +:+ host +:+ "/" +:+ path) Hscheme);
    [| right; by exists ":"%char, ("//" +:+ host +:+ "/" +:+ path)].
  change ("://" +:+ host +:+ "/" +:+ path) with (":" +:+ "//" +:+ host +:+ "/" +:+ path).
  rewrite strip_prefix_app, Hne, strip_prefix_app.
  rewrite (break_app "/?#" host ("/" +:+ path) Hhost); [| right; by exists "/"%char, path].
  rewrite (break_free "?#" ("/" +:+ path)); [by idtac |].
  change ("/" +:+ path) with (String "/"%char path). by rewrite free_of_cons, Hpath.
Qed.

Lemma split_slash_free (seg : string) :
  free_of "/" seg = true → split_slash seg = [seg].
Proof.
  induction seg as [|c seg IH]; [by idtac |].
  rewrite free_of_cons, andb_true_iff, negb_true_iff. intros [Hc Hseg]; simpl.
  unfold one_of in Hc; simpl in Hc. rewrite orb_false_r in Hc. by rewrite Hc, (IH Hseg).
Qed.

Lemma split_slash_app (seg rest : string) :
  free_of "/" seg = true →
  split_slash (seg +:+ "/" +:+ rest) = seg :: split_slash rest.
Proof.
  induction seg as [|c seg IH].
  - intros _. reflexivity.
  - rewrite free_of_cons, andb_true_iff, negb_true_iff. intros [Hc Hseg].
    rewrite string_app_cons; simpl.
    unfold one_of in Hc; simpl in Hc. rewrite orb_false_r in Hc. by rewrite Hc, (IH Hseg).
Qed.

Lemma join_slash_cons (seg : string) (segs : list string) :
  segs ≠ [] → join_slash (seg :: segs) = seg +:+ "/" +:+ join_slash segs.
Proof. by destruct segs. Qed.

Lemma join_slash_app (l1 l2 : list string) :
  l1 ≠ [] → l2 ≠ [] →
  join_slash (l1 ++ l2) = join_slash l1 +:+ "/" +:+ join_slash l2.
Proof.
  intros H1 H2. induction l1 as [|seg l1 IH]; [by idtac |].
  destruct l1 as [|seg' l1].
  - by rewrite <- join_slash_cons.
  - change ((seg :: seg' :: l1) ++ l2) with (seg :: ((seg' :: l1) ++ l2)).
    rewrite join_slash_cons by (by idtac). rewrite IH by (by idtac).
    rewrite (join_slash_cons seg (seg' :: l1)) by (by idtac).
    by rewrite !string_app_assoc.
Qed.

Lemma split_slash_join (segs : list string) :
  Forall (λ seg, free_of "/" seg = true) segs → segs ≠ [] →
  split_slash (join_slash segs) = segs.
Proof.
  induction 1 as [|seg segs Hseg Hsegs IH]; [by idtac |]. intros _.
  destruct segs as [|seg' segs]; [by apply split_slash_free |].
  rewrite join_slash_cons by (by idtac). rewrite split_slash_app by (by idtac).
  by rewrite IH.
Qed.

Lemma free_of_join_slash chars (segs : list string) :
  one_of chars "/"%char = false →
  Forall (λ seg, free_of chars seg = true) segs →
  free_of chars (join_slash segs) = true.
Proof.
  intros Hslash. induction 1 as [|seg segs Hseg Hsegs IH]; [by idtac |].
  destruct segs as [|seg' segs]; [by idtac |].
  rewrite join_slash_cons by (by idtac).
  rewrite !free_of_app, Hseg, IH.
  change (free_of chars "/") with (negb (one_of chars "/"%char) && true).
  by rewrite Hslash.
Qed.

Lemma remove_dots_plain (segs rest out : list string) :
  Forall (λ seg, seg ≠ "." ∧ seg ≠ "..") segs →
  remove_dots (segs ++ rest) out = remove_dots rest (rev segs ++ out).
Proof.
  intros Hsegs. revert out.
  induction Hsegs as [|seg segs [Hdot Hdots] _ IH]; intros out; [by idtac |]; simpl.
  apply String.eqb_neq in Hdot, Hdots. rewrite Hdot, Hdots, IH.
  by rewrite <- app_assoc.
Qed.

Lemma remove_dots_up (k : nat) (rest out : list string) :
  rest ≠ [] →
  remove_dots (replicate k ".." ++ rest) out = remove_dots rest (drop k out).
Proof.
  intros Hrest. revert out. induction k as [|k IH]; intros out; [by idtac |]; simpl.
  destruct (replicate k ".." ++ rest) as [|x l] eqn:E.
  { by destruct k, rest. }
  rewrite IH. destruct out; simpl; by rewrite ?drop_nil.
Qed.

(** Dot segments: [k] steps up from the directories [dirs], then down the
    plain segments [segs]. *)
Lemma remove_dots_up_down (dirs segs : list string) (k : nat) :
  Forall (λ seg, seg ≠ "." ∧ seg ≠ "..") dirs →
  Forall (λ seg, seg ≠ "." ∧ seg ≠ "..") segs →
  segs ≠ [] →
  rev (remove_dots (dirs ++ replicate k ".." ++ segs) [])
  = take (length dirs - k) dirs ++ segs.
Proof.
  intros Hdirs Hsegs Hne.
  rewrite (remove_dots_plain dirs _ [] Hdirs), app_nil_r.
  rewrite (remove_dots_up k segs _ Hne).
  rewrite <- (app_nil_r segs) at 1. rewrite (remove_dots_plain segs [] _ Hsegs); simpl.
  rewrite rev_app_distr, rev_involutive. f_equal.
  by rewrite skipn_rev, rev_involutive.
Qed.

Lemma is_segment_spec (seg : string) :
  is_segment seg = true →
  seg ≠ "" ∧ (seg ≠ "." ∧ seg ≠ "..") ∧ free_of ":/?#" seg = true.
Proof.
  unfold is_segment. rewrite !andb_true_iff, !negb_true_iff, !String.eqb_neq. tauto.
Qed.

Lemma ends_with_slash_app (a b : string) :
  b ≠ "" → ends_with_slash (a +:+ b) = ends_with_slash b.
Proof.
  intros Hb. induction a as [|c a IH]; [by idtac |].
  rewrite string_app_cons; simpl. rewrite IH.
  destruct (a +:+ b) eqn:E; [| by idtac]. by destruct a, b.
Qed.

Lemma ends_with_slash_free (s : string) :
  free_of "/" s = true → ends_with_slash s = false.
Proof.
  induction s as [|c s IH]; [by idtac |].
  rewrite free_of_cons, andb_true_iff, negb_true_iff. intros [Hc Hs]; simpl.
  unfold one_of in Hc; simpl in Hc. rewrite orb_false_r in Hc.
  destruct s; [by idtac | by apply IH].
Qed.

(** The directory of a path of plain segments, with or without a slash at
    its end. *)
Lemma directory_of_segments (dirs : list string) (slash : string) :
  Forall (λ seg, is_segment seg = true) dirs → dirs ≠ [] →
  slash = "" ∨ slash = "/" →
  directory ("/" +:+ join_slash dirs +:+ slash) = "/" +:+ join_slash dirs +:+ "/".
Proof.
  intros Hdirs Hne Hslash. unfold directory.
  destruct Hslash as [-> | ->].
  - rewrite string_app_nil_r.
    destruct (exists_last Hne) as (init & seg & ->).
    apply Forall_app in Hdirs as [_ Hseg]. apply List.Forall_inv in Hseg.
    apply is_segment_spec in Hseg as (Hseg & _ & Hfree).
    assert (free_of "/" seg = true) as Hfree'.
    { revert Hfree. apply free_of_weaken, one_of_sub. reflexivity. }
    assert (ends_with_slash ("/" +:+ join_slash (init ++ [seg])) = false) as ->; [| by idtac].
    destruct init as [|seg' init].
    + rewrite ends_with_slash_app by (by idtac). by apply ends_with_slash_free.
    + rewrite join_slash_app by (by idtac). rewrite <- !string_app_assoc.
      rewrite ends_with_slash_app by (by idtac). by apply ends_with_slash_free.
  - rewrite <- string_app_assoc. rewrite ends_with_slash_app by (by idtac).
    by rewrite string_app_assoc.
Qed.

(** The join of [k] steps up and a path of plain segments against a
    reference URL with scheme, host and a path of plain segments: the last [k]
    segments of the reference URL's path, or all of them if there are fewer,
    are replaced by the path. *)
Lemma urljoin_up_down (scheme host slash : string) (dirs segs : list string) (k : nat) :
  is_scheme scheme = true →
  is_host host = true →
  Forall (λ seg, is_segment seg = true) dirs → dirs ≠ [] →
  Forall (λ seg, is_segment seg = true) segs → segs ≠ [] →
  slash = "" ∨ slash = "/" →
  let refurl := scheme +:+ "://" +:+ host +:+ "/" +:+ join_slash dirs +:+ slash in
  let url := join_slash (replicate k ".." ++ segs) in
  is_relative url = true
  ∧ urljoin refurl url
    = scheme +:+ "://" +:+ host +:+ "/" +:+ join_slash (take (length dirs - k) dirs ++ segs).
Proof.
  intros Hscheme Hhost Hdirs Hdne Hsegs Hsne Hslash refurl url.
  assert (Forall (λ seg, seg ≠ "" ∧ (seg ≠ "." ∧ seg ≠ "..") ∧ free_of ":/?#" seg = true) dirs)
    as Hdirs'.
  { eapply Forall_impl; [exact Hdirs |]. apply is_segment_spec. }
  assert (Forall (λ seg, seg ≠ "" ∧ (seg ≠ "." ∧ seg ≠ "..") ∧ free_of ":/?#" seg = true) segs)
    as Hsegs'.
  { eapply Forall_impl; [exact Hsegs |]. apply is_segment_spec. }
  assert (Forall (λ seg, seg ≠ "" ∧ free_of ":/?#" seg = true) (replicate k ".." ++ segs))
    as Hurl.
  { apply Forall_app. split.
    - apply Forall_replicate. by split.
    - eapply Forall_impl; [exact Hsegs' |]. naive_solver. }
  assert (replicate k ".." ++ segs ≠ []) as Hune.
  { by destruct k, segs. }
  assert (∀ chars l,
            forallb (one_of ":/?#") (String.list_ascii_of_string chars) = true →
            Forall (λ seg : string, seg ≠ "" ∧ free_of ":/?#" seg = true) l →
            Forall (λ seg, free_of chars seg = true) l) as Hweak.
  { intros chars l Hsub Hl. eapply Forall_impl; [exact Hl |].
    intros seg [_ Hfree]. revert Hfree. by apply free_of_weaken, one_of_sub. }
  assert (Forall (λ seg : string, seg ≠ "" ∧ free_of ":/?#" seg = true) dirs) as Hdirs''.
  { eapply Forall_impl; [exact Hdirs' |]. naive_solver. }
  assert (∃ c url', url = String c url' ∧ Ascii.eqb "/" c = false) as (c & url' & Hform & Hc).
  { unfold url. destruct (replicate k ".." ++ segs) as [|seg l] eqn:E; [by idtac |].
    apply Forall_cons in Hurl as [[Hseg Hfree] _].
    destruct seg as [|c seg]; [by idtac |]. exists c.
    rewrite free_of_cons, andb_true_iff, negb_true_iff in Hfree. destruct Hfree as [Hfree _].
    unfold one_of in Hfree; simpl in Hfree.
    rewrite !orb_false_iff in Hfree. destruct Hfree as (_ & Hslash' & _).
    rewrite Ascii.eqb_sym in Hslash'.
    destruct l; [by exists seg | eexists; split; [reflexivity | by idtac]]. }
  assert (free_of ":?#" url = true) as Hfree.
  { apply free_of_join_slash; [reflexivity |]. apply Hweak; [reflexivity | exact Hurl]. }
  assert (urlsplit url = mk_url None None url None None) as Hsplit.
  { rewrite Hform. apply urlsplit_relative_path; [by idtac | by rewrite <- Hform]. }
  assert (free_of "?#" (join_slash dirs +:+ slash) = true) as Hpath.
  { rewrite free_of_app. rewrite free_of_join_slash; [| reflexivity |].
    - by destruct Hslash as [-> | ->].
    - apply Hweak; [reflexivity | exact Hdirs'']. }
  split.
  - unfold is_relative. rewrite Hform at 1. by rewrite Hsplit.
  - unfold urljoin. rewrite Hsplit.
    cbn [url_scheme url_authority url_path url_query url_fragment].
    assert (String.eqb url "" = false) as -> by (rewrite Hform; reflexivity).
    assert (strip_prefix "/" url = None) as Hstrip
      by (rewrite Hform; cbn [strip_prefix]; by rewrite Hc).
    rewrite Hstrip. rewrite bool_decide_false by (by intros [? [=]]).
    unfold refurl. rewrite (urlsplit_absolute scheme host _ Hscheme Hhost Hpath).
    cbn [url_scheme url_authority url_path url_query url_fragment].
    rewrite (directory_of_segments dirs slash Hdirs Hdne Hslash).
    unfold urlunsplit.
    cbn [url_scheme url_authority url_path url_query url_fragment].
    rewrite !string_app_nil_r.
    unfold remove_dot_segments.
    rewrite !string_app_assoc. rewrite strip_prefix_app.
    unfold url. rewrite <- join_slash_app by (by idtac).
    rewrite split_slash_join; [| | by destruct dirs].
    + rewrite remove_dots_up_down; [reflexivity | | | by idtac].
      * eapply Forall_impl; [exact Hdirs' |]. naive_solver.
      * eapply Forall_impl; [exact Hsegs' |]. naive_solver.
    + apply Forall_app. split; apply Hweak; try reflexivity; by idtac.
Qed.

(** A URL with a scheme is not relative. *)
Lemma absolute_not_relative (scheme rest : string) :
  is_scheme scheme = true → is_relative (scheme +:+ ":" +:+ rest) = false.
Proof.
  intros Hscheme. unfold is_relative.
  rewrite (urlsplit_scheme_some scheme rest Hscheme).
  destruct (scheme +:+ ":" +:+ rest); [by idtac |]. by apply bool_decide_false.
Qed.

(** C9.  When a reference URL is supplied, a relative URL of a declaration,
    its own or the one assembled from a remote, is joined against the
    reference URL: [k] steps up followed by a path of plain segments replace
    the last [k] segments of the reference URL's path, stopping at the host,
    with or without a slash at the end of the reference URL; a URL with a
    scheme is kept as it is, and so is every URL when there is no reference
    URL.  [../dep4] against [https://example.com/base/dep1] is
    [https://example.com/base/dep4]. *)
Theorem relative_url_joined_against_refurl defaults remotes spec resolved :
  manifest.ResolvedProject.from_project defaults remotes spec = Ok resolved →
  let project url :=
    Ok (iters.Project.mk (manifest.ResolvedProject.name resolved)
          (manifest.ResolvedProject.path resolved) url
          (manifest.ResolvedProject.revision resolved) iters.MANIFEST_PATH) in
  (∀ scheme host slash dirs segs k,
     manifest.ResolvedProject.url resolved = Some (join_slash (replicate k ".." ++ segs)) →
     is_scheme scheme = true →
     is_host host = true →
     Forall (λ seg, is_segment seg = true) dirs → dirs ≠ [] →
     Forall (λ seg, is_segment seg = true) segs → segs ≠ [] →
     slash = "" ∨ slash = "/" →
     iters.Project.from_spec defaults remotes spec
       (Some (scheme +:+ "://" +:+ host +:+ "/" +:+ join_slash dirs +:+ slash))
     = project (Some (scheme +:+ "://" +:+ host +:+ "/"
                      +:+ join_slash (take (length dirs - k) dirs ++ segs))))
  ∧ (∀ scheme rest refurl,
       manifest.ResolvedProject.url resolved = Some (scheme +:+ ":" +:+ rest) →
       is_scheme scheme = true →
       iters.Project.from_spec defaults remotes spec (Some refurl)
       = project (Some (scheme +:+ ":" +:+ rest)))
  ∧ iters.Project.from_spec defaults remotes spec None
    = project (manifest.ResolvedProject.url resolved)
  ∧ urljoin "https://example.com/base/dep1" "../dep4" = "https://example.com/base/dep4".
Proof.
  intros Hresolved project. split; [| split; [| split]].
  - intros scheme host slash dirs segs k Hurl Hscheme Hhost Hdirs Hdne Hsegs Hsne Hslash.
    rewrite from_spec_from_project, Hresolved, Hurl. unfold project. do 3 f_equal.
    destruct (urljoin_up_down scheme host slash dirs segs k Hscheme Hhost Hdirs Hdne
                Hsegs Hsne Hslash) as [-> ->].
    by idtac.
  - intros scheme rest refurl Hurl Hscheme.
    rewrite from_spec_from_project, Hresolved, Hurl. unfold project. do 3 f_equal.
    by rewrite (absolute_not_relative scheme rest Hscheme).
  - rewrite from_spec_from_project, Hresolved. unfold project.
    by destruct (manifest.ResolvedProject.url resolved).
  - reflexivity.
Qed.

Lemma relative_url_joined_against_refurl_witness :
  iters.Project.from_spec manifest.Defaults.new []
    (manifest.Project.mk "dep4" None None (Some "../dep4") None None)
    (Some "https://example.com/base/dep1")
  = Ok (iters.Project.mk "dep4" "dep4" (Some "https://example.com/base/dep4") None
          "anyrepo.toml").
Proof.
  pose proof (relative_url_joined_against_refurl manifest.Defaults.new []
                (manifest.Project.mk "dep4" None None (Some "../dep4") None None)
                _ eq_refl) as [Hjoin _].
  apply (Hjoin "https" "example.com" "" ["base"; "dep1"] ["dep4"] 1%nat);
    try (by idtac); by repeat constructor.
Defined.

(** The project walker with [resolve_url]: the URLs of the fixture, relative
    to the project that declares them, are joined against the URL of its
    clone; without a clone the assertion fails. *)
Lemma scenario_resolved_urls :
  (∃ r, iters.ProjectIter.__iter__ cloned_world
          (iters.ProjectIter.mk scenario_workspace "repos/main/anyrepo.toml" true true) 3
        = Some r
      ∧ raised r = None
      ∧ map iters.Project.name (yielded r) = ["dep1"; "dep2"; "dep4"; "dep3"]
      ∧ map iters.Project.url (yielded r)
        = [Some "https://example.com/base/dep1"; Some "https://example.com/base/dep2";
           Some "https://example.com/base/dep4"; Some "https://example.com/base/dep3"])
  ∧ (∃ r, iters.ProjectIter.__iter__ scenario_world
            (iters.ProjectIter.mk scenario_workspace "repos/main/anyrepo.toml" true true) 3
          = Some r
        ∧ raised r = Some AssertionError ∧ yielded r = []).
Proof. split; (eexists; split; [by vm_compute | by idtac]). Qed.

(** ** The walkers on the repositories of the fixtures *)

(** C1.  On the fixture repositories the project walker, with
    [skip_main=false], yields main, dep1, dep2, dep4 and dep3 in this order;
    dep2 carries the revision [1-feature], the others none.  Two levels of
    descent suffice, and more change nothing. *)
Theorem scenario_projects (fuel : nat) :
  (2 ≤ fuel)%nat →
  ∃ r, iters.ProjectIter.__iter__ scenario_world
         (iters.ProjectIter.mk scenario_workspace "repos/main/anyrepo.toml" false false) fuel
       = Some r
     ∧ raised r = None
     ∧ map iters.Project.name (yielded r) = ["main"; "dep1"; "dep2"; "dep4"; "dep3"]
     ∧ map iters.Project.path (yielded r) = ["main"; "dep1"; "dep2"; "dep4"; "dep3"]
     ∧ map iters.Project.revision (yielded r) = [None; None; Some "1-feature"; None; None].
Proof.
  intros Hfuel.
  destruct fuel as [|[|fuel]]; [lia | lia |].
  eexists. split; [by vm_compute | done].
Qed.

Lemma scenario_projects_witness :
  ∃ r, iters.ProjectIter.__iter__ scenario_world
         (iters.ProjectIter.mk scenario_workspace "repos/main/anyrepo.toml" false false) 5
       = Some r
     ∧ map iters.Project.name (yielded r) = ["main"; "dep1"; "dep2"; "dep4"; "dep3"].
Proof.
  destruct (scenario_projects 5) as (r & Hr & _ & Hnames & _); [lia |].
  by exists r.
Defined.

(** ** The paths a file store declares *)

Lemma load_manifest_of fs path m :
  manifest.Manifest.load fs path = Ok m ↔
  ∃ content, fs !! path = Some content ∧ manifest_of content = Ok m.
Proof.
  unfold manifest.Manifest.load, manifest_of.
  destruct (fs !! path) as [content|]; simpl; split; try done.
  - intros ?. by exists content.
  - by intros (? & [= <-] & ?).
  - by intros (? & [=] & ?).
Qed.

Lemma load_declared fs path m x :
  manifest.Manifest.load fs path = Ok m → x ∈ declared m → x ∈ declared_paths fs.
Proof.
  intros (content & Hfile & Hm)%load_manifest_of Hx.
  unfold declared_paths. apply elem_of_union_list.
  exists (list_to_set (declared m)). split; [| by apply elem_of_list_to_set].
  apply list_elem_of_fmap. exists (path, content). simpl. rewrite Hm.
  split; [done |]. by apply elem_of_map_to_list.
Qed.

Lemma load_or_default_cases fs path m :
  iters.ManifestSpec.load fs path (Some iters.ManifestSpec.new) = Ok m →
  manifest.Manifest.load fs path = Ok m ∨ m = iters.ManifestSpec.new.
Proof.
  unfold iters.ManifestSpec.load.
  destruct (manifest.Manifest.load fs path) as [m'|[]]; try done; auto.
  intros [= <-]. by right.
Qed.

Lemma load_or_default_declared fs path m x :
  iters.ManifestSpec.load fs path (Some iters.ManifestSpec.new) = Ok m →
  x ∈ declared m → x ∈ declared_paths fs.
Proof.
  intros [Hm | ->]%load_or_default_cases; [by eapply load_declared |].
  by intros ?%elem_of_nil.
Qed.

Lemma load_no_default fs path m :
  iters.ManifestSpec.load fs path None = Ok m → manifest.Manifest.load fs path = Ok m.
Proof.
  unfold iters.ManifestSpec.load.
  by destruct (manifest.Manifest.load fs path) as [m'|[]].
Qed.

(** ** Counting the paths that are not visited yet *)





(** ** Generators in sequence *)

Lemma yield_from_each_inv {A B} (P : list string → run A → Prop)
    (f : B → list string → option (run A)) (items : list B) :
  (∀ d, P d (mk_run [] d None)) →
  (∀ d r1 r2, P d r1 → raised r1 = None → P (visited r1) r2 →
     P d (mk_run (yielded r1 ++ yielded r2) (visited r2) (raised r2))) →
  (∀ x d r1, x ∈ items → f x d = Some r1 → P d r1) →
  ∀ seen r, yield_from_each f items seen = Some r → P seen r.
Proof.
  intros Hnil Hseq. induction items as [|x items IH]; intros Hf seen r; simpl.
  - intros [= <-]. apply Hnil.
  - destruct (f x seen) as [r1|] eqn:E1; [| done].
    assert (P seen r1) as H1 by (eapply Hf; [left | done]).
    destruct (raised r1) as [e|] eqn:Er; [by intros [= <-] |].
    destruct (yield_from_each f items (visited r1)) as [r2|] eqn:E2; [| done].
    intros [= <-]. apply Hseq; [done | done |].
    apply IH; [| done]. intros y d r' Hy. apply Hf. by right.
Qed.


(** ** The project walker *)

Section project_walker.
Context (w : World) (self : iters.ProjectIter.t).

Let root := Workspace.path (iters.ProjectIter.workspace self).

(** The case analysis of one round of the scanning loop. *)
Ltac scan_round Hdep Hin Hload :=
  simpl;
  destruct (iters.Project.from_spec _ _ _ _) as [?dep|?e] eqn:Hdep; simpl;
  [ case_bool_decide as Hin; simpl;
    [ | destruct (iters.ManifestSpec.load _ _ _) as [?dep_manifest|?e] eqn:Hload; simpl ]
  | ].

Lemma project_scan_visited m refurl specs seen :
  let s := iters.ProjectIter.scan w self m refurl specs seen in
  iters.ProjectIter.scan_done s
  = seen ++ map iters.Project.path (iters.ProjectIter.scan_yielded s).
Proof.
  revert seen. induction specs as [|spec specs IH]; intros seen; simpl.
  - by rewrite app_nil_r.
  - scan_round Hdep Hin Hload.
    + apply IH.
    + rewrite IH. by rewrite <- app_assoc.
    + done.
    + by rewrite app_nil_r.
Qed.

Lemma project_scan_nodup m refurl specs seen :
  NoDup seen → NoDup (iters.ProjectIter.scan_done
                        (iters.ProjectIter.scan w self m refurl specs seen)).
Proof.
  revert seen. induction specs as [|spec specs IH]; intros seen Hnd; simpl; [done |].
  assert (∀ p, p ∉ seen → NoDup (seen ++ [p])) as Hsnoc.
  { intros p Hp. apply NoDup_app. repeat split; [done | | apply NoDup_singleton].
    intros x Hx ->%list_elem_of_singleton. done. }
  scan_round Hdep Hin Hload; auto.
Qed.

Lemma project_scan_declared m refurl specs seen dep :
  dep ∈ iters.ProjectIter.scan_yielded (iters.ProjectIter.scan w self m refurl specs seen) →
  ∃ spec, spec ∈ specs ∧ iters.Project.path dep = declared_path spec
          ∧ iters.Project.manifest_path dep = iters.MANIFEST_PATH
          ∧ iters.Project.path dep ∉ seen.
Proof.
  revert seen. induction specs as [|spec specs IH]; intros seen; simpl.
  { by intros ?%elem_of_nil. }
  scan_round Hdep Hin Hload.
  - intros (spec' & ? & ?)%IH. exists spec'. split; [by right | done].
  - intros [-> | Hrest]%elem_of_cons.
    + destruct (from_spec_path _ _ _ _ _ Hdep) as [? ?]. exists spec.
      split; [by left | done].
    + apply IH in Hrest as (spec' & ? & ? & ? & Hnot). exists spec'.
      split; [by right |]. repeat split; [done | done |].
      intros ?. apply Hnot. apply elem_of_app. by left.
  - intros ->%list_elem_of_singleton.
    destruct (from_spec_path _ _ _ _ _ Hdep) as [? ?]. exists spec.
    split; [by left | done].
  - by intros ?%elem_of_nil.
Qed.


Lemma project_scan_deps_loaded m refurl specs seen pp m' :
  (pp, m') ∈ iters.ProjectIter.scan_deps (iters.ProjectIter.scan w self m refurl specs seen) →
  ∃ path, manifest.Manifest.load (files w) path = Ok m'.
Proof.
  revert seen. induction specs as [|spec specs IH]; intros seen; simpl.
  { by intros ?%elem_of_nil. }
  scan_round Hdep Hin Hload; try (by intros ?%elem_of_nil); [apply IH |].
  case_bool_decide as Hne; [| apply IH].
  intros [[= -> ->] | Hrest]%elem_of_cons; [| by eapply IH].
  apply load_or_default_cases in Hload as [Hload | ->]; [eauto | done].
Qed.



(** The visited list only grows, by the paths of the projects yielded, and
    stays free of duplicates. *)
Lemma project_iter_visited fuel :
  ∀ pp m seen r,
    iters.ProjectIter.__iter w self fuel pp m seen = Some r →
    visited r = seen ++ map iters.Project.path (yielded r)
    ∧ (NoDup seen → NoDup (visited r)).
Proof.
  induction fuel as [|fuel IH]; intros pp m seen r; simpl; [by idtac |].
  destruct (iters.ProjectIter.refurl_of w self pp) as [refurl|e].
  2: { intros [= <-]; simpl. by rewrite app_nil_r. }
  pose proof (project_scan_visited m refurl (iters.ManifestSpec.dependencies m) seen) as Hv.
  pose proof (project_scan_nodup m refurl (iters.ManifestSpec.dependencies m) seen) as Hn.
  simpl in Hv. destruct (iters.ProjectIter.scan w self m refurl _ seen) as [ys sd deps sr].
  simpl in *. destruct sr as [e|]; [by intros [= <-] |].
  destruct (yield_from_each _ deps sd) as [r'|] eqn:E; [| by idtac].
  intros [= <-]; simpl.
  apply (yield_from_each_inv
           (λ d r, visited r = d ++ map iters.Project.path (yielded r)
                   ∧ (NoDup d → NoDup (visited r)))) in E.
  - destruct E as [-> Hn']. subst sd. rewrite map_app, app_assoc. auto.
  - intros d; simpl. by rewrite app_nil_r.
  - intros d r1 r2 [Hv1 Hn1] _ [Hv2 Hn2]; simpl.
    rewrite Hv2, Hv1, map_app, app_assoc. split; [by idtac |].
    intros Hd. rewrite <- Hv1, <- Hv2. auto.
  - intros [pp' m'] d r1 _. apply IH.
Qed.

(** Every project yielded sits at a path declared in the file store. *)
Lemma project_iter_declared fuel :
  ∀ pp m seen r,
    (∀ x, x ∈ declared m → x ∈ declared_paths (files w)) →
    iters.ProjectIter.__iter w self fuel pp m seen = Some r →
    ∀ dep, dep ∈ yielded r → iters.Project.path dep ∈ declared_paths (files w).
Proof.
  induction fuel as [|fuel IH]; intros pp m seen r Hm; simpl; [by idtac |].
  destruct (iters.ProjectIter.refurl_of w self pp) as [refurl|e].
  2: { intros [= <-]; simpl. by intros ? ?%elem_of_nil. }
  pose proof (λ dep, project_scan_declared m refurl (iters.ManifestSpec.dependencies m)
                       seen dep) as Hd.
  pose proof (λ pp' m', project_scan_deps_loaded m refurl
                         (iters.ManifestSpec.dependencies m) seen pp' m') as Hl.
  destruct (iters.ProjectIter.scan w self m refurl _ seen) as [ys sd deps sr].
  simpl in *.
  assert (∀ dep, dep ∈ ys → iters.Project.path dep ∈ declared_paths (files w)) as Hys.
  { intros dep (spec & Hspec & -> & _)%Hd. apply Hm.
    unfold declared. apply list_elem_of_fmap. eauto. }
  destruct sr as [e|]; [by intros [= <-] |].
  destruct (yield_from_each _ deps sd) as [r'|] eqn:E; [| by idtac].
  intros [= <-]; simpl.
  enough (∀ dep, dep ∈ yielded r' → iters.Project.path dep ∈ declared_paths (files w))
    by (intros dep [?|?]%elem_of_app; auto).
  revert E.
  apply (yield_from_each_inv
           (λ _ r, ∀ dep, dep ∈ yielded r →
                          iters.Project.path dep ∈ declared_paths (files w))).
  - intros d; simpl. by intros ? ?%elem_of_nil.
  - intros d r1 r2 H1 _ H2; simpl. intros dep [?|?]%elem_of_app; auto.
  - intros [pp' m'] d r1 Hin. apply IH.
    destruct (Hl _ _ Hin) as [path Hpath]. intros x. by eapply load_declared.
Qed.



(** A scan that ends without exception has visited the path of every
    declaration it was given. *)
Lemma project_scan_complete m refurl specs seen :
  let s := iters.ProjectIter.scan w self m refurl specs seen in
  iters.ProjectIter.scan_raised s = None →
  ∀ spec, spec ∈ specs → declared_path spec ∈ iters.ProjectIter.scan_done s.
Proof.
  revert seen. induction specs as [|spec specs IH]; intros seen; simpl.
  { by intros _ ? ?%elem_of_nil. }
  scan_round Hdep Hin Hload; try (by idtac).
  - intros Hr spec' [-> | Hrest]%elem_of_cons; [| by apply IH].
    rewrite project_scan_visited. apply elem_of_app. left.
    by destruct (from_spec_path _ _ _ _ _ Hdep) as [<- _].
  - intros Hr spec' [-> | Hrest]%elem_of_cons; [| by apply IH].
    rewrite project_scan_visited. apply elem_of_app. left.
    apply elem_of_app. right. apply list_elem_of_singleton.
    by destruct (from_spec_path _ _ _ _ _ Hdep) as [<- _].
Qed.

(** In such a scan the manifest of every project yielded is the empty one
    or queued for the descent. *)
Lemma project_scan_queued m refurl specs seen :
  let s := iters.ProjectIter.scan w self m refurl specs seen in
  iters.ProjectIter.scan_raised s = None →
  ∀ dep m', dep ∈ iters.ProjectIter.scan_yielded s →
    iters.ManifestSpec.load (files w) (manifest_location root (iters.Project.path dep))
      (Some iters.ManifestSpec.new) = Ok m' →
    m' = iters.ManifestSpec.new ∨ ∃ pp, (pp, m') ∈ iters.ProjectIter.scan_deps s.
Proof.
  revert seen. induction specs as [|spec specs IH]; intros seen; simpl.
  { by intros _ ? ? ?%elem_of_nil. }
  scan_round Hdep Hin Hload; try (by idtac).
  - apply IH.
  - intros Hr dep' m' [-> | Hrest]%elem_of_cons Hm'.
    + unfold manifest_location, root in Hm'.
      destruct (from_spec_path _ _ _ _ _ Hdep) as [_ Hmp]. rewrite Hmp in Hload.
      rewrite Hload in Hm'. injection Hm' as <-.
      destruct (manifest.Manifest.eq_dec dep_manifest iters.ManifestSpec.new) as [? | Hne];
        [by left |].
      right. rewrite bool_decide_true by exact Hne. eexists. by left.
    + destruct (IH _ Hr dep' m' Hrest Hm') as [? | [pp Hpp]]; [by left |].
      right. exists pp. case_bool_decide; [by right | by idtac].
Qed.

(** A sequence of generators that ends without exception: every one of
    them ran without exception, from a visited list that contains the
    initial one, and every path visited in the end was visited initially
    or added by one of them. *)
Lemma yield_from_each_success {A B} (f : B → list string → option (run A))
    (items : list B) :
  (∀ x d r1, x ∈ items → f x d = Some r1 → ∀ q, q ∈ d → q ∈ visited r1) →
  ∀ seen r, yield_from_each f items seen = Some r → raised r = None →
    (∀ q, q ∈ seen → q ∈ visited r)
    ∧ (∀ x, x ∈ items →
         ∃ d r1, f x d = Some r1 ∧ raised r1 = None
                 ∧ (∀ q, q ∈ visited r1 → q ∈ visited r))
    ∧ (∀ q, q ∈ visited r →
         q ∈ seen
         ∨ ∃ x d r1, x ∈ items ∧ f x d = Some r1 ∧ raised r1 = None
                     ∧ (∀ q', q' ∈ seen → q' ∈ d)
                     ∧ (∀ q', q' ∈ visited r1 → q' ∈ visited r)
                     ∧ q ∈ visited r1 ∧ q ∉ d).
Proof.
  induction items as [|x items IH]; intros Hmono seen r; simpl.
  - intros [= <-] _; simpl. repeat split; [by idtac | | by left].
    by intros ? ?%elem_of_nil.
  - destruct (f x seen) as [r1|] eqn:E1; [| by idtac].
    pose proof (Hmono x seen r1 (list_elem_of_here _ _) E1) as Hmono1.
    destruct (raised r1) as [e|] eqn:Er1.
    { intros [= <-] Hr. congruence. }
    destruct (yield_from_each f items (visited r1)) as [r2|] eqn:E2; [| by idtac].
    intros [= <-] Hr2; simpl in *.
    destruct (IH (λ y d r' Hy, Hmono y d r' (list_elem_of_further _ _ _ Hy)) _ _ E2 Hr2)
      as (IH1 & IH2 & IH3).
    split; [| split].
    + auto.
    + intros y [-> | Hy]%elem_of_cons; [by exists seen, r1 | by apply IH2].
    + intros q Hq. destruct (IH3 q Hq) as [Hq1 | (y & d & r' & Hy & ? & ? & ? & ? & ? & ?)].
      * destruct (decide (q ∈ seen)) as [? | Hnot]; [by left |].
        right. exists x, seen, r1. split; [by left |]. by idtac.
      * right. exists y, d, r'. split; [by right |]. repeat split; auto.
Qed.

(** A descent that ends without exception has visited the path of every
    declaration of its manifest, and of every manifest found at a path it
    visited on the way. *)
Lemma project_iter_complete fuel :
  ∀ pp m seen r,
    iters.ProjectIter.__iter w self fuel pp m seen = Some r →
    raised r = None →
    (∀ spec, spec ∈ manifest.Manifest.projects m → declared_path spec ∈ visited r)
    ∧ (∀ q m' spec,
         q ∈ visited r → q ∉ seen →
         iters.ManifestSpec.load (files w) (manifest_location root q)
           (Some iters.ManifestSpec.new) = Ok m' →
         spec ∈ manifest.Manifest.projects m' →
         declared_path spec ∈ visited r).
Proof.
  induction fuel as [|fuel IH]; intros pp m seen r; simpl; [by idtac |].
  destruct (iters.ProjectIter.refurl_of w self pp) as [refurl|e].
  2: { by intros [= <-]. }
  pose proof (project_scan_visited m refurl (iters.ManifestSpec.dependencies m) seen) as Hv.
  pose proof (project_scan_complete m refurl (iters.ManifestSpec.dependencies m) seen) as Hc.
  pose proof (project_scan_queued m refurl (iters.ManifestSpec.dependencies m) seen) as Hq.
  destruct (iters.ProjectIter.scan w self m refurl _ seen) as [ys sd deps sr].
  simpl in *. destruct sr as [e|]; [by intros [= <-] |].
  destruct (yield_from_each _ deps sd) as [r'|] eqn:E; [| by idtac].
  intros [= <-] Hr'; simpl in *.
  apply yield_from_each_success in E as (Hsub & Hitems & Hnew); [| | exact Hr'].
  2: { intros [pp' m'] d r1 _ Hr1 q Hq1.
       destruct (project_iter_visited _ _ _ _ _ Hr1) as [-> _].
       apply elem_of_app. by left. }
  specialize (Hc eq_refl). specialize (Hq eq_refl).
  split; [by auto |].
  intros q m' spec Hqv Hqs Hm' Hspec.
  destruct (Hnew q Hqv) as [Hsd | ([pp' m''] & d & r1 & _ & Hr1 & Hok1 & Hd & Hr1v & Hq1 & Hqd)].
  - subst sd. apply elem_of_app in Hsd as [? | Hys]; [by idtac |].
    apply list_elem_of_fmap in Hys as (dep & -> & Hdep).
    destruct (Hq dep m' Hdep Hm') as [-> | [pp' Hin]].
    { by apply elem_of_nil in Hspec. }
    destruct (Hitems _ Hin) as (d & r1 & Hr1 & Hok1 & Hr1v).
    apply Hr1v. by apply (IH _ _ _ _ Hr1 Hok1).
  - apply Hr1v. destruct (IH _ _ _ _ Hr1 Hok1) as [_ Hclosed]. by eapply Hclosed.
Qed.

End project_walker.

(** ** The manifest walker *)

Section manifest_walker.
Context (w : World) (self : iters.ManifestIter.t).

Let root := Workspace.path (iters.ManifestIter.workspace self).

(** A scan appends the paths it had not seen; the dependencies it queues are
    those of the new paths at which a manifest file exists, in the order of
    the scan. *)
Lemma manifest_scan_spec dependencies seen :
  uniform dependencies →
  let s := iters.ManifestIter.scan w self dependencies seen in
  ∃ new,
    fst s = seen ++ new
    ∧ NoDup new
    ∧ (∀ q, q ∈ new → (q ∉ seen) ∧ q ∈ map iters.Manifest.project_path dependencies)
    ∧ (∀ dep, dep ∈ dependencies → iters.Manifest.project_path dep ∈ fst s)
    ∧ snd s = map (queued root)
                (filter (λ q, is_Some (files w !! manifest_location root q)) new).
Proof.
  revert seen. induction dependencies as [|dep dependencies IH]; intros seen Hu; simpl.
  { exists []. rewrite app_nil_r.
    split; [by idtac |]. split; [constructor |]. split; [by intros ? ?%elem_of_nil |].
    split; [by intros ? ?%elem_of_nil | by idtac]. }
  apply Forall_cons in Hu as [Hdep Hu].
  case_bool_decide as Hin.
  - destruct (IH seen Hu) as (new & Hv & Hn & Hnew & Hall & Hq).
    exists new. repeat split; try by idtac.
    + by apply Hnew.
    + right. by apply Hnew.
    + intros dep' [-> | ?]%elem_of_cons; [| by auto].
      rewrite Hv. apply elem_of_app. by left.
  - destruct (IH (seen ++ [iters.Manifest.project_path dep]) Hu)
      as (new & Hv & Hn & Hnew & Hall & Hq).
    destruct (iters.ManifestIter.scan w self dependencies
                (seen ++ [iters.Manifest.project_path dep])) as [sd deps].
    simpl in *.
    exists (iters.Manifest.project_path dep :: new).
    assert (∀ (b : bool) (x y : list string * list (string * string)),
              fst (if b then x else y) = if b then fst x else fst y) as Hfst
      by (by intros []).
    rewrite Hfst; simpl. rewrite Tauto.if_same.
    split; [by rewrite Hv, <- app_assoc |]. split; [| split; [| split]].
    + apply NoDup_cons. split; [| by idtac].
      intros [Hnot _]%Hnew. apply Hnot. apply elem_of_app. right.
      by apply list_elem_of_singleton.
    + intros q [-> | Hq']%elem_of_cons; [split; [by idtac | by left] |].
      destruct (Hnew q Hq') as [Hnot ?]. split; [| by right].
      intros ?. apply Hnot. apply elem_of_app. by left.
    + intros dep' [-> | ?]%elem_of_cons; [| by auto].
      rewrite Hv. apply elem_of_app. left. apply elem_of_app. right.
      by apply list_elem_of_singleton.
    + rewrite filter_cons. unfold manifest_location, root in *. rewrite Hdep.
      case_bool_decide as Hex.
      * rewrite decide_True by exact Hex. simpl. by rewrite Hq.
      * rewrite decide_False by exact Hex. by idtac.
Qed.


(** The descent into the queued dependencies. *)
Lemma manifest_children_run (f : string * string → list string → option (run iters.Manifest.t))
    (qs : list string) :
  (∀ q d r, q ∈ qs → f (queued root q) d = Some r →
     manifest_run w root (Some (manifest_location root q)) [] d r) →
  (∀ q, q ∈ qs → is_Some (files w !! manifest_location root q)) →
  NoDup qs →
  ∀ seen r, (∀ q, q ∈ qs → q ∈ seen) →
    yield_from_each f (map (queued root) qs) seen = Some r →
    manifest_run w root None qs seen r.
Proof.
  induction qs as [|q qs IH]; intros Hf Hex Hnd seen r Hqs; simpl.
  { intros [= <-]. exists [], []. simpl. rewrite app_nil_r.
    split; [by idtac |]. split; [constructor |]. split; [by intros ? ?%elem_of_nil |].
    split; [constructor |]. split; [by intros ? ?%elem_of_nil |].
    split; [by intros ? ?%elem_of_nil |]. split; [by left |].
    intros _. split; [| split; [| by idtac]].
    - by intros x [?%elem_of_nil | ?%elem_of_nil].
    - by intros x m spec [?%elem_of_nil | ?%elem_of_nil]. }
  apply NoDup_cons in Hnd as [Hq Hnd].
  destruct (f (queued root q) seen) as [r1|] eqn:E1; [| by idtac].
  assert (∃ c1 new1, visited r1 = seen ++ new1 ∧ NoDup new1
            ∧ (∀ x, x ∈ new1 → (x ∉ seen) ∧ x ∈ declared_paths (files w))
            ∧ NoDup c1 ∧ (∀ x, x ∈ c1 → x = q ∨ x ∈ new1)
            ∧ (∀ x, x ∈ c1 → is_Some (files w !! manifest_location root x))
            ∧ map iters.Manifest.path (yielded r1) = map (manifest_location root) c1
            ∧ (raised r1 = None →
               (∀ x, x = q ∨ x ∈ new1 →
                     is_Some (files w !! manifest_location root x) → x ∈ c1)
               ∧ (∀ x m spec, x = q ∨ x ∈ new1 →
                    manifest.Manifest.load (files w) (manifest_location root x) = Ok m →
                    spec ∈ manifest.Manifest.projects m →
                    declared_path spec ∈ visited r1)))
    as (c1 & new1 & Hv1 & Hn1 & Hnew1 & Hc1 & Hin1 & Hex1 & Hy1 & Hs1).
  { destruct (Hf q seen r1 (list_elem_of_here _ _) E1)
      as (new1 & ps1 & ? & ? & Hnew1 & ? & Hps1 & ? & [Hy | (mp & [= <-] & Hy)] & Hcov).
    - exists ps1, new1.
      do 4 (split; [by idtac |]). split; [| split; [by idtac | split; [by idtac |]]].
      { intros x [?%elem_of_nil | ?]%Hps1; by auto. }
      intros Hr. destruct (Hcov Hr) as (_ & _ & Hown).
      destruct (Hown _ eq_refl) as [Hy' _]. rewrite Hy in Hy'.
      apply (f_equal length) in Hy'. simpl in Hy'. lia.
    - exists (q :: ps1), new1. rewrite Hy.
      do 3 (split; [by idtac |]).
      split; [| split; [| split; [| split; [by idtac |]]]].
      + apply NoDup_cons. split; [| by idtac].
        intros [?%elem_of_nil | Hqn]%Hps1; [by idtac |].
        destruct (Hnew1 q Hqn) as [Hnot _]. apply Hnot, Hqs. by left.
      + intros x [-> | [?%elem_of_nil | ?]%Hps1]%elem_of_cons; by auto.
      + intros x [-> | ?]%elem_of_cons; [apply Hex; by left | by auto].
      + intros Hr. destruct (Hcov Hr) as (Hall & Hclosed & Hown).
        destruct (Hown _ eq_refl) as [_ Hdecl]. split.
        * intros x [-> | Hx] Hfile; [by left |]. right. apply Hall; by auto.
        * intros x m spec [-> | Hx] Hm Hspec; [by eapply Hdecl |].
          eapply Hclosed; [right; exact Hx | exact Hm | exact Hspec]. }
  destruct (raised r1) as [e|] eqn:Er1.
  { intros [= <-]. exists new1, c1.
    do 4 (split; [by idtac |]).
    split; [| split; [by idtac | split; [by left | by rewrite Er1]]].
    intros x [-> | ?]%Hin1; [left; by left | by right]. }
  destruct (Hs1 eq_refl) as [Hall1 Hclosed1].
  destruct (yield_from_each f (map (queued root) qs) (visited r1)) as [r2|] eqn:E2; [| by idtac].
  intros [= <-]; simpl.
  destruct (IH (λ x d r' Hx, Hf x d r' (list_elem_of_further _ _ _ Hx))
              (λ x Hx, Hex x (list_elem_of_further _ _ _ Hx)) Hnd (visited r1) r2)
    as (new2 & ps2 & Hv2 & Hn2 & Hnew2 & Hp2 & Hin2 & Hex2 & [Hy2 | (? & [=] & _)] & Hs2);
    [| by idtac |].
  { intros x Hx. rewrite Hv1. apply elem_of_app. left. apply Hqs. by right. }
  rewrite Hv1 in Hnew2.
  exists (new1 ++ new2), (c1 ++ ps2).
  split; [by rewrite Hv2, Hv1, app_assoc |].
  split; [| split; [| split; [| split; [| split; [| split]]]]].
  - apply NoDup_app. repeat split; [by idtac | | by idtac].
    intros x Hx1 Hx2. destruct (Hnew2 x Hx2) as [Hnot _]. apply Hnot.
    apply elem_of_app. by right.
  - intros x [Hx | Hx]%elem_of_app; [by auto |].
    destruct (Hnew2 x Hx) as [Hnot ?]. split; [| by idtac].
    intros ?. apply Hnot. apply elem_of_app. by left.
  - apply NoDup_app. repeat split; [by idtac | | by idtac].
    intros x Hx1 Hx2.
    destruct (Hin2 x Hx2) as [Hx2q | Hx2n]; destruct (Hin1 x Hx1) as [Hxq | Hx1n].
    + by subst x.
    + destruct (Hnew1 x Hx1n) as [Hnot _]. apply Hnot, Hqs. by right.
    + subst x. destruct (Hnew2 q Hx2n) as [Hnot _]. apply Hnot. apply elem_of_app. left.
      apply Hqs. by left.
    + destruct (Hnew2 x Hx2n) as [Hnot _]. apply Hnot. apply elem_of_app. by right.
  - intros x [Hx | Hx]%elem_of_app.
    + destruct (Hin1 x Hx) as [-> | ?]; [left; by left |].
      right. apply elem_of_app. by left.
    + destruct (Hin2 x Hx) as [? | ?]; [left; by right |].
      right. apply elem_of_app. by right.
  - intros x [Hx | Hx]%elem_of_app; by auto.
  - left. simpl. by rewrite !map_app, Hy1, Hy2.
  - simpl. intros Hr2. destruct (Hs2 Hr2) as (Hall2 & Hclosed2 & _).
    assert (∀ x, x ∈ visited r1 → x ∈ visited r2) as Hsub
      by (intros x ?; rewrite Hv2; apply elem_of_app; by left).
    split; [| split; [| by idtac]].
    + intros x Hx Hfile. apply elem_of_app.
      destruct Hx as [[-> | Hx]%elem_of_cons | [Hx | Hx]%elem_of_app].
      * left. apply Hall1; by auto.
      * right. apply Hall2; by auto.
      * left. apply Hall1; by auto.
      * right. apply Hall2; by auto.
    + intros x m spec Hx Hm Hspec.
      destruct Hx as [[-> | Hx]%elem_of_cons | [Hx | Hx]%elem_of_app].
      * apply Hsub. eapply Hclosed1; [by left | exact Hm | exact Hspec].
      * eapply Hclosed2; [left; exact Hx | exact Hm | exact Hspec].
      * apply Hsub. eapply Hclosed1; [right; exact Hx | exact Hm | exact Hspec].
      * eapply Hclosed2; [right; exact Hx | exact Hm | exact Hspec].
Qed.

Lemma manifest_dependencies_uniform manifest :
  uniform (iters.Manifest.dependencies manifest).
Proof.
  unfold uniform, iters.Manifest.dependencies. apply Forall_forall.
  by intros dep (spec & -> & _)%list_elem_of_fmap.
Qed.

Lemma manifest_dependencies_paths m mp :
  map iters.Manifest.project_path (iters.Manifest.dependencies (iters.Manifest.from_spec m mp))
  = declared m.
Proof.
  unfold iters.Manifest.dependencies, declared; simpl.
  rewrite map_map. by apply map_ext.
Qed.

(** Every run of [__iter] is of this kind. *)
Lemma manifest_iter_run fuel :
  ∀ pp mp seen r,
    iters.ManifestIter.__iter w self fuel pp mp seen = Some r →
    manifest_run w root (Some mp) [] seen r.
Proof.
  induction fuel as [|fuel IH]; intros pp mp seen r; simpl; [by idtac |].
  destruct (iters.ManifestSpec.load (files w) mp None) as [m|e] eqn:Hload.
  2: { intros [= <-]. exists [], []. simpl. rewrite app_nil_r.
       split; [by idtac |]. split; [constructor |]. split; [by intros ? ?%elem_of_nil |].
       split; [constructor |]. split; [by intros ? ?%elem_of_nil |].
       split; [by intros ? ?%elem_of_nil |]. split; [by left | by idtac]. }
  apply load_no_default in Hload.
  destruct (manifest_scan_spec (iters.Manifest.dependencies (iters.Manifest.from_spec m mp))
              seen (manifest_dependencies_uniform _))
    as (new0 & Hv0 & Hn0 & Hnew0 & Hall0 & Hq0).
  rewrite manifest_dependencies_paths in Hnew0.
  destruct (iters.ManifestIter.scan w self _ seen) as [sd deps]. simpl in Hv0, Hq0, Hall0.
  subst sd deps.
  destruct (yield_from_each _ _ _) as [r'|] eqn:E; [| by idtac].
  intros [= <-].
  apply manifest_children_run in E
    as (new' & ps' & Hv' & Hn' & Hnew' & Hp' & Hin' & Hex' & [Hy' | (? & [=] & _)] & Hs').
  - exists (new0 ++ new'), ps'. simpl.
    split; [by rewrite Hv', app_assoc |].
    split; [| split; [| split; [by idtac | split; [| split; [by idtac | split]]]]].
    + apply NoDup_app. repeat split; [by idtac | | by idtac].
      intros x Hx0 Hx'. destruct (Hnew' x Hx') as [Hnot _]. apply Hnot.
      apply elem_of_app. by right.
    + intros x [Hx | Hx]%elem_of_app.
      * destruct (Hnew0 x Hx) as [? ?]. split; [by idtac |]. by eapply load_declared.
      * destruct (Hnew' x Hx) as [Hnot ?]. split; [| by idtac].
        intros ?. apply Hnot. apply elem_of_app. by left.
    + intros x Hx. right. apply elem_of_app.
      destruct (Hin' x Hx) as [[_ ?]%list_elem_of_filter | ?]; by auto.
    + right. exists mp. by rewrite Hy'.
    + intros Hr'. destruct (Hs' Hr') as (Hall' & Hclosed' & _).
      assert (∀ x, x ∈ new0 → is_Some (files w !! manifest_location root x) →
                   x ∈ filter (λ q, is_Some (files w !! manifest_location root q)) new0)
        as Hfilter by (intros x ? ?; by apply list_elem_of_filter).
      split; [| split].
      * intros x [?%elem_of_nil | [Hx | Hx]%elem_of_app] Hfile; [by idtac | |].
        -- apply Hall'; [left; by apply Hfilter | by idtac].
        -- apply Hall'; by auto.
      * intros x m' spec [?%elem_of_nil | [Hx | Hx]%elem_of_app] Hm' Hspec; [by idtac | |].
        -- eapply Hclosed'; [left | exact Hm' | exact Hspec].
           apply Hfilter; [by idtac |].
           apply load_manifest_of in Hm' as (content & -> & _). by eexists.
        -- eapply Hclosed'; [right; exact Hx | exact Hm' | exact Hspec].
      * intros mp' [= <-]. simpl. split; [by rewrite Hy' |].
        intros m' spec Hm' Hspec. rewrite Hload in Hm'. injection Hm' as <-.
        rewrite Hv'. apply elem_of_app. left.
        apply (Hall0 (iters.Manifest.mk_dependency (declared_path spec) iters.MANIFEST_PATH)).
        unfold iters.Manifest.dependencies; simpl. apply list_elem_of_fmap. by exists spec.
  - intros q d r1 _ Hr1. by apply IH in Hr1.
  - by intros q [? _]%list_elem_of_filter.
  - by apply NoDup_filter.
  - intros q [_ Hq]%list_elem_of_filter. apply elem_of_app. by right.
Qed.



End manifest_walker.

(** ** The walkers as a whole *)





(** What a run of the project walker has done. *)
Lemma project_walker_run w self fuel r :
  iters.ProjectIter.__iter__ w self fuel = Some r →
  ∃ deps,
    yielded r = iters.ProjectIter.main self ++ deps
    ∧ visited r = map iters.Project.path deps
    ∧ NoDup (visited r)
    ∧ (∀ dep, dep ∈ deps → iters.Project.path dep ∈ declared_paths (files w))
    ∧ (raised r = None →
       ∀ p, reachable w (Workspace.path (iters.ProjectIter.workspace self))
              (iters.ProjectIter.manifest_path self) p →
            p ∈ visited r).
Proof.
  unfold iters.ProjectIter.__iter__.
  destruct (iters.ManifestSpec.load (files w) (iters.ProjectIter.manifest_path self) _)
    as [m|e] eqn:Hload.
  2: { intros [= <-]. exists []; simpl. rewrite app_nil_r.
       split; [by idtac |]. split; [by idtac |]. split; [constructor |].
       split; [by intros ? ?%elem_of_nil | by idtac]. }
  destruct (iters.ProjectIter.__iter w self fuel _ m []) as [r'|] eqn:E; [| by idtac].
  intros [= <-]; simpl. exists (yielded r').
  destruct (project_iter_visited _ _ _ _ _ _ _ E) as [Hv Hn]. simpl in Hv.
  split; [by idtac |]. split; [by idtac |]. split; [apply Hn; constructor |]. split.
  - eapply project_iter_declared; [| exact E]. intros x. by eapply load_or_default_declared.
  - intros Hr p Hp.
    destruct (project_iter_complete _ _ _ _ _ _ _ E Hr) as [Hroot Hclosed].
    induction Hp as [m' spec Hm' Hspec | q m' spec _ IH Hm' Hspec].
    + rewrite Hload in Hm'. injection Hm' as <-. by apply Hroot.
    + eapply Hclosed; [exact IH | by intros ?%elem_of_nil | exact Hm' | exact Hspec].
Qed.

(** What a run of the manifest walker has done. *)
Lemma manifest_walker_run w self fuel r :
  iters.ManifestIter.__iter__ w self fuel = Some r →
  let root := Workspace.path (iters.ManifestIter.workspace self) in
  ∃ ps,
    NoDup (visited r)
    ∧ (∀ q, q ∈ visited r → q ∈ declared_paths (files w))
    ∧ NoDup ps
    ∧ (∀ q, q ∈ ps → q ∈ visited r ∧ is_Some (files w !! manifest_location root q))
    ∧ (map iters.Manifest.path (yielded r) = map (manifest_location root) ps
       ∨ map iters.Manifest.path (yielded r)
         = iters.ManifestIter.manifest_path self :: map (manifest_location root) ps)
    ∧ (raised r = None →
       ∀ p, reachable w root (iters.ManifestIter.manifest_path self) p →
            p ∈ visited r
            ∧ (is_Some (files w !! manifest_location root p) → p ∈ ps)).
Proof.
  unfold iters.ManifestIter.__iter__. intros E.
  apply manifest_iter_run in E as (new & ps & Hv & Hn & Hnew & Hp & Hin & Hex & Hy & Hs).
  set (root := Workspace.path (iters.ManifestIter.workspace self)) in *.
  simpl in Hv. exists ps. rewrite Hv.
  split; [by idtac |]. split; [intros q Hq; by apply Hnew |]. split; [by idtac |].
  split; [| split].
  - intros q Hq. split; [| by auto].
    by destruct (Hin q Hq) as [?%elem_of_nil | ?].
  - destruct Hy as [? | (mp & [= <-] & ?)]; by auto.
  - intros Hr. destruct (Hs Hr) as (Hall & Hclosed & Hown).
    destruct (Hown _ eq_refl) as [_ Hdecl]. rewrite Hv in Hclosed, Hdecl.
    assert (∀ p, reachable w root (iters.ManifestIter.manifest_path self) p → p ∈ new)
      as Hreach.
    { induction 1 as [m spec Hm Hspec | q m spec _ IH Hm Hspec].
      - apply load_or_default_cases in Hm as [Hm | ->];
          [by eapply Hdecl | by apply elem_of_nil in Hspec].
      - apply load_or_default_cases in Hm as [Hm | ->];
          [| by apply elem_of_nil in Hspec].
        eapply Hclosed; [right; exact IH | exact Hm | exact Hspec]. }
    intros p Hrp. split; [by apply Hreach |]. intros Hfile. apply Hall; [| by idtac].
    right. by apply Hreach.
Qed.


(** The two walkers on the cycle: the main project, its dependency, and the
    main project once more, as the dependency of its dependency. *)
Lemma walkers_on_cycle :
  (∀ fuel, (3 ≤ fuel)%nat →
     ∃ r, iters.ProjectIter.__iter__ cyclic_world
            (iters.ProjectIter.mk cyclic_workspace "ws/main/anyrepo.toml" false false) fuel
          = Some r
        ∧ raised r = None
        ∧ map iters.Project.path (yielded r) = ["main"; "dep1"; "main"]
        ∧ visited r = ["dep1"; "main"])
  ∧ (∀ fuel, (3 ≤ fuel)%nat →
       ∃ r, iters.ManifestIter.__iter__ cyclic_world
              (iters.ManifestIter.mk cyclic_workspace "ws/main/anyrepo.toml") fuel
            = Some r
          ∧ raised r = None
          ∧ map iters.Manifest.path (yielded r)
            = ["ws/main/anyrepo.toml"; "ws/dep1/anyrepo.toml"; "ws/main/anyrepo.toml"]
          ∧ visited r = ["dep1"; "main"]).
Proof.
  split; intros fuel Hfuel; destruct fuel as [|[|[|fuel]]]; try lia;
    (eexists; split; [by vm_compute | by idtac]).
Qed.




(** * Further properties of the code *)

(** ** Loading and saving, continued *)

Lemma validated_not_nil {A} (errors : list string) (a : A) : validated errors a ≠ inl [].
Proof. by destruct errors. Qed.

Lemma str_validator_not_nil v : str_validator v ≠ inl [].
Proof. by destruct v. Qed.

Lemma model_item_not_nil {A} (validate : list (string * pyval) → field A) v :
  (∀ d, validate d ≠ inl []) → model_item validate v ≠ inl [].
Proof. intros Hv. destruct v; simpl; by auto. Qed.

Lemma list_items_not_nil {A} (validate : list (string * pyval) → field A) l :
  (∀ d, validate d ≠ inl []) → list_items validate l ≠ inl [].
Proof.
  intros Hv. induction l as [|v l IH]; simpl; [by idtac |].
  pose proof (model_item_not_nil validate v Hv) as Hitem.
  destruct (model_item validate v) as [e1|a], (list_items validate l) as [e2|l'];
    simpl; try (by idtac).
  - intros [= [-> _]%app_eq_nil]. by idtac.
  - intros [= [-> _]%app_eq_nil]. by idtac.
Qed.

Lemma list_field_not_nil {A} (validate : list (string * pyval) → field A) v :
  (∀ d, validate d ≠ inl []) → list_field validate v ≠ inl [].
Proof.
  intros Hv. destruct v as [[]|]; simpl; try (by idtac). by apply list_items_not_nil.
Qed.

Lemma model_field_not_nil {A} (validate : list (string * pyval) → field A) a v :
  (∀ d, validate d ≠ inl []) → model_field validate a v ≠ inl [].
Proof. intros Hv. destruct v; simpl; [by apply model_item_not_nil | by idtac]. Qed.

(** A field without error messages holds a value. *)
Lemma field_value {A} (f : field A) :
  f ≠ inl [] → errors_of f = [] → ∃ a, f = inr a.
Proof. destruct f as [e|a]; simpl; [by intros ? -> | by eauto]. Qed.

(** The items of a list that passed are valid, one by one. *)
Lemma list_items_valid l ps :
  list_items manifest.ProjectData.validate l = inr ps → Forall manifest.Project.valid ps.
Proof.
  revert ps. induction l as [|v l IH]; intros ps; simpl.
  { intros [= <-]. constructor. }
  destruct (model_item manifest.ProjectData.validate v) as [e|p] eqn:Ep; simpl;
    [by destruct (list_items _ l) |].
  destruct (list_items manifest.ProjectData.validate l) as [e|ps'] eqn:El; [by idtac |].
  intros [= <-]. constructor; [| by apply IH].
  destruct v; simpl in Ep; try (by idtac). by eapply project_validate_valid.
Qed.

Lemma default_manifest_valid : manifest.Manifest.valid manifest.Manifest.new.
Proof. split; [by idtac | constructor]. Qed.

(** What the class makes of the items of a dict is a valid manifest. *)
Lemma manifest_validate_valid d m :
  manifest.Manifest.validate d = inr m → manifest.Manifest.valid m.
Proof.
  unfold manifest.Manifest.validate.
  remember (model_field manifest.ProjectData.validate
              (manifest.Manifest.main manifest.Manifest.new) (by_alias d "self" "main"))
    as fmain eqn:Hfmain.
  remember (list_field manifest.ProjectData.validate (dict_get d "projects"))
    as fprojects eqn:Hfprojects.
  intros [Herr <-]%validated_inr.
  apply app_eq_nil in Herr as [Hmain [_ [_ Hprojects]%app_eq_nil]%app_eq_nil].
  assert (fmain ≠ inl []) as Hmain'.
  { subst fmain. apply model_field_not_nil. intros d'. apply validated_not_nil. }
  assert (fprojects ≠ inl []) as Hprojects'.
  { subst fprojects. apply list_field_not_nil. intros d'. apply validated_not_nil. }
  destruct (field_value _ Hmain' Hmain) as [p Hp].
  destruct (field_value _ Hprojects' Hprojects) as [ps Hps].
  rewrite Hp, Hps in *. split; simpl.
  - destruct (by_alias d "self" "main") as [v|]; simpl in Hfmain.
    + destruct v; simpl in Hfmain; try (by idtac).
      symmetry in Hfmain. by eapply project_validate_valid.
    + by injection Hfmain as ->.
  - destruct (dict_get d "projects") as [v|]; simpl in Hfprojects.
    + destruct v; simpl in Hfprojects; try (by idtac).
      symmetry in Hfprojects. by eapply list_items_valid.
    + injection Hfprojects as ->. constructor.
Qed.

(** X1.  Every manifest that [load] returns satisfies the validator's rules
    in all its declarations, the main project included. *)
Theorem loaded_manifest_is_valid (fs : gmap string text) (path : string)
    (m : manifest.Manifest.t) :
  manifest.Manifest.load fs path = Ok m → manifest.Manifest.valid m.
Proof.
  unfold manifest.Manifest.load.
  destruct (fs !! path) as [[|data]|]; simpl; try (by idtac).
  destruct data as [| | | | |d]; simpl; try (by idtac).
  destruct (default (PDict []) (dict_get d "manifest")) as [| | | | |d']; simpl;
    try (by idtac).
  destruct (manifest.Manifest.validate d') as [e|m'] eqn:E; simpl; [by idtac |].
  intros [= <-]. by eapply manifest_validate_valid.
Qed.

Lemma loaded_manifest_is_valid_witness :
  manifest.Manifest.valid
    (manifest.Manifest.mk (manifest.Manifest.main manifest.Manifest.new)
       manifest.Defaults.new []
       [manifest.Project.mk "dep4" None None (Some "../dep4") None None]).
Proof.
  apply (loaded_manifest_is_valid (repos "repos") "repos/dep1/anyrepo.toml").
  by vm_compute.
Defined.

(** X2.  [load] raises [ManifestNotFoundError] only when there is no file at
    the path, and then with that path: a file that cannot be parsed or
    validated is never reported as not found. *)
Theorem load_not_found_only_if_missing (fs : gmap string text) (path p : string) :
  manifest.Manifest.load fs path = Raise (ManifestNotFoundError p) →
  fs !! path = None ∧ p = path.
Proof.
  unfold manifest.Manifest.load.
  destruct (fs !! path) as [[|data]|]; simpl; try (by idtac); [| by intros [= ->]].
  destruct data as [| | | | |d]; simpl; try (by idtac).
  destruct (default (PDict []) (dict_get d "manifest")) as [| | | | |d']; simpl;
    try (by idtac).
  by destruct (manifest.Manifest.validate d').
Qed.

Lemma load_not_found_only_if_missing_witness :
  (∅ : gmap string text) !! "anyrepo.toml" = None ∧ "anyrepo.toml" = "anyrepo.toml".
Proof.
  by apply (load_not_found_only_if_missing ∅ "anyrepo.toml" "anyrepo.toml").
Defined.

(** X3.  A file whose YAML is a mapping without the key [manifest], or with
    an empty mapping under it, loads as the default manifest. *)
Theorem load_without_manifest_key (fs : gmap string text) (path : string)
    (d : list (string * pyval)) :
  fs !! path = Some (Denotes (PDict d)) →
  dict_get d "manifest" = None ∨ dict_get d "manifest" = Some (PDict []) →
  manifest.Manifest.load fs path = Ok manifest.Manifest.new.
Proof.
  intros Hfile Hkey. unfold manifest.Manifest.load. rewrite Hfile; simpl.
  by destruct Hkey as [-> | ->].
Qed.

Lemma load_without_manifest_key_witness :
  manifest.Manifest.load {[ "anyrepo.toml" := Denotes (PDict [("version", PInt 1)]) ]}
    "anyrepo.toml"
  = Ok manifest.Manifest.new.
Proof.
  apply (load_without_manifest_key _ _ [("version", PInt 1)]); [by idtac | by left].
Defined.

(** X6.  A manifest that was loaded can be saved anywhere and is the same
    when loaded from there. *)
Theorem load_then_save_then_load (fs fs' : gmap string text) (path path' : string)
    (m : manifest.Manifest.t) :
  manifest.Manifest.load fs path = Ok m →
  manifest.Manifest.load (manifest.Manifest.save m path' fs') path' = Ok m.
Proof.
  intros Hload.
  assert (manifest.Manifest.valid m) as Hvalid.
  { apply load_manifest_of in Hload as (content & _ & Hm). revert Hm.
    unfold manifest_of. destruct content as [|data]; simpl; [by idtac |].
    destruct data as [| | | | |d]; simpl; try (by idtac).
    destruct (default (PDict []) (dict_get d "manifest")) as [| | | | |d']; simpl;
      try (by idtac).
    destruct (manifest.Manifest.validate d') as [e|m'] eqn:E; simpl; [by idtac |].
    intros [= <-]. by eapply manifest_validate_valid. }
  unfold manifest.Manifest.load, manifest.Manifest.save.
  rewrite lookup_insert_eq; simpl. by rewrite (manifest_validate_dict m Hvalid).
Qed.

Lemma load_then_save_then_load_witness :
  manifest.Manifest.load
    (manifest.Manifest.save
       (manifest.Manifest.mk (manifest.Manifest.main manifest.Manifest.new)
          manifest.Defaults.new []
          [manifest.Project.mk "dep4" None None (Some "../dep4") None None])
       "copy/anyrepo.toml" ∅)
    "copy/anyrepo.toml"
  = Ok (manifest.Manifest.mk (manifest.Manifest.main manifest.Manifest.new)
          manifest.Defaults.new []
          [manifest.Project.mk "dep4" None None (Some "../dep4") None None]).
Proof.
  apply (load_then_save_then_load (repos "repos") ∅ "repos/dep1/anyrepo.toml").
  by vm_compute.
Defined.

(** ** Resolution of a declaration, continued *)

(** A resolved project has the declaration's name, the path and revision
    chosen by [or], and nothing else but a URL. *)
Lemma from_project_ok_form defaults remotes project r :
  manifest.ResolvedProject.from_project defaults remotes project = Ok r →
  ∃ url,
    r = manifest.ResolvedProject.mk (manifest.Project.name project) None None url
          (py_or (manifest.Project.revision project) (manifest.Defaults.revision defaults))
          (py_or_str (manifest.Project.path project) (manifest.Project.name project))
          None.
Proof.
  unfold manifest.ResolvedProject.from_project.
  destruct (if negb (truthy (manifest.Project.url project)) then _ else _) as [u|e]; simpl;
    [| by idtac].
  rewrite resolved_init_ok. intros [= <-]. by exists u.
Qed.

(** X7.  Resolution fails in one situation only: the declaration has no
    non-empty URL, its effective remote is a non-empty name, and no alias of
    the list has that name. *)
Theorem resolution_fails_iff defaults remotes project :
  (∃ e, manifest.ResolvedProject.from_project defaults remotes project = Raise e)
  ↔ blank (manifest.Project.url project)
    ∧ ∃ rn, effective_remote defaults project rn ∧ no_alias remotes rn.
Proof.
  split.
  - intros [e He]. by eapply from_project_raises_only_unknown_remote.
  - intros (Hu & rn & Heff & Hnone%find_alias_None).
    rewrite (from_project_remote _ _ _ rn Hu Heff), Hnone. by eexists.
Qed.

(** X8.  A non-empty URL of the declaration settles the resolution: it
    succeeds, the URL is kept, and neither the aliases nor the default
    remote have any influence. *)
Theorem explicit_url_settles_resolution defaults defaults' remotes remotes' project :
  nonempty (manifest.Project.url project) →
  manifest.Defaults.revision defaults = manifest.Defaults.revision defaults' →
  manifest.ResolvedProject.from_project defaults remotes project
  = manifest.ResolvedProject.from_project defaults' remotes' project
  ∧ ∃ r, manifest.ResolvedProject.from_project defaults remotes project = Ok r
         ∧ manifest.ResolvedProject.url r = manifest.Project.url project.
Proof.
  intros Hu Hrev. rewrite !(from_project_own_url _ _ _ Hu), Hrev.
  split; [by idtac |]. by eexists.
Qed.

Lemma explicit_url_settles_resolution_witness :
  manifest.ResolvedProject.from_project (manifest.Defaults.mk (Some "nowhere") None) []
    (manifest.Project.mk "dep1" None None (Some "../dep1") None None)
  = manifest.ResolvedProject.from_project manifest.Defaults.new
      [manifest.Remote.mk "origin" (Some "https://example.com/base")]
      (manifest.Project.mk "dep1" None None (Some "../dep1") None None).
Proof.
  by apply (explicit_url_settles_resolution (manifest.Defaults.mk (Some "nowhere") None)
              manifest.Defaults.new []
              [manifest.Remote.mk "origin" (Some "https://example.com/base")]
              (manifest.Project.mk "dep1" None None (Some "../dep1") None None));
    [by exists "../dep1" | by idtac].
Defined.

(** X9.  Of a resolved project only name, path, URL and revision are set:
    [remote], [sub_url] and [manifest] are [None]; and its path is empty
    only if the declaration's name is empty and its path absent or empty. *)
Theorem resolved_project_shape defaults remotes project r :
  manifest.ResolvedProject.from_project defaults remotes project = Ok r →
  manifest.ResolvedProject.remote r = None
  ∧ manifest.ResolvedProject.sub_url r = None
  ∧ manifest.ResolvedProject.manifest r = None
  ∧ (manifest.ResolvedProject.path r = ""
     ↔ manifest.Project.name project = "" ∧ blank (manifest.Project.path project)).
Proof.
  intros [url ->]%from_project_ok_form; simpl. do 3 (split; [by idtac |]).
  rewrite py_or_str_spec. unfold blank. split.
  - intros [[Hp Hne] | [Hb Hn]]; [by idtac | by auto].
  - intros [Hn Hb]. right. by auto.
Qed.

Lemma resolved_project_shape_witness :
  ∃ r, manifest.ResolvedProject.from_project manifest.Defaults.new
         [manifest.Remote.mk "origin" (Some "https://example.com/base")]
         (manifest.Project.mk "dep1" (Some "origin") (Some "libs/dep1.git") None None None)
       = Ok r
     ∧ manifest.ResolvedProject.remote r = None
     ∧ manifest.ResolvedProject.sub_url r = None.
Proof.
  eexists. split; [reflexivity |].
  destruct (resolved_project_shape manifest.Defaults.new
              [manifest.Remote.mk "origin" (Some "https://example.com/base")]
              (manifest.Project.mk "dep1" (Some "origin") (Some "libs/dep1.git")
                 None None None) _ eq_refl) as (? & ? & _).
  by idtac.
Defined.

(** X10.  An alias without [url_base] is used all the same: the URL
    assembled from it begins with the text [None]. *)
Theorem url_from_alias_without_base defaults remotes project rn remote sub :
  blank (manifest.Project.url project) →
  effective_remote defaults project rn →
  first_alias remotes rn remote →
  manifest.Remote.url_base remote = None →
  sub_url_or_name project sub →
  ∃ r, manifest.ResolvedProject.from_project defaults remotes project = Ok r
       ∧ manifest.ResolvedProject.url r = Some ("None/" +:+ sub).
Proof.
  intros Hu Heff Hfirst%find_alias_Some Hbase Hsub.
  rewrite (from_project_remote _ _ _ rn Hu Heff), Hfirst. eexists. split; [by idtac |].
  assert (py_or_str (manifest.Project.sub_url project) (manifest.Project.name project) = sub)
    as ->.
  { apply py_or_str_spec. destruct Hsub as [[? ?] | [? ->]]; by auto. }
  simpl. by rewrite Hbase.
Qed.

Lemma url_from_alias_without_base_witness :
  ∃ r, manifest.ResolvedProject.from_project (manifest.Defaults.mk (Some "origin") None)
         [manifest.Remote.mk "origin" None]
         (manifest.Project.mk "dep1" None None None None None) = Ok r
       ∧ manifest.ResolvedProject.url r = Some "None/dep1".
Proof.
  apply (url_from_alias_without_base (manifest.Defaults.mk (Some "origin") None)
           [manifest.Remote.mk "origin" None]
           (manifest.Project.mk "dep1" None None None None None)
           "origin" (manifest.Remote.mk "origin" None) "dep1").
  - by left.
  - split; [by idtac |]. right. split; [by left | by idtac].
  - exists [], []. split; [by idtac |]. split; [by idtac | constructor].
  - by idtac.
  - right. split; [by left | by idtac].
Defined.

(** X11.  When the unknown remote comes from the defaults, the message of
    the error does not name it: it is formatted with the declaration's own
    [remote], which reads [None] when unset and is empty when set to the
    empty string. *)
Theorem unknown_default_remote_not_named defaults remotes project rn :
  blank (manifest.Project.url project) →
  blank (manifest.Project.remote project) →
  manifest.Defaults.remote defaults = Some rn →
  rn ≠ "" →
  no_alias remotes rn →
  manifest.ResolvedProject.from_project defaults remotes project
  = Raise (ValueError ("Unknown remote "
                       +:+ match manifest.Project.remote project with
                           | Some _ => ""
                           | None => "None"
                           end
                       +:+ " for project " +:+ manifest.Project.name project)).
Proof.
  intros Hu Hr Hd Hne Hnone%find_alias_None.
  rewrite (from_project_remote _ _ _ rn Hu); [| split; by auto].
  rewrite Hnone. by destruct Hr as [-> | ->].
Qed.

Lemma unknown_default_remote_not_named_witness :
  manifest.ResolvedProject.from_project (manifest.Defaults.mk (Some "origin") None) []
    (manifest.Project.mk "dep1" None None None None None)
  = Raise (ValueError "Unknown remote None for project dep1").
Proof.
  apply (unknown_default_remote_not_named (manifest.Defaults.mk (Some "origin") None) []
           (manifest.Project.mk "dep1" None None None None None) "origin");
    try (by idtac); [by left | by left | constructor].
Defined.

(** ** The project filter *)

Lemma existsb_path_eq (x : option string) (l : list path_or_str) :
  existsb (path_eq x) l = true ↔ ∃ s, x = Some s ∧ a_str s ∈ l.
Proof.
  rewrite existsb_exists. split.
  - intros (e & Hin%list_elem_of_In & He). destruct x as [s|], e as [s'|s']; simpl in He;
      try (by idtac).
    apply String.eqb_eq in He as ->. by exists s'.
  - intros (s & -> & Hin). exists (a_str s). split; [by apply list_elem_of_In |].
    simpl. apply String.eqb_refl.
Qed.

(** X12.  Without a list of paths, or with an empty one, the filter lets
    every project pass.  With a non-empty list a project passes exactly when
    its path is set and occurs in the list as a [str]: a declaration whose
    path is unset never passes, and a list of [Path] objects, which is what
    the annotation asks for, lets no project pass. *)
Theorem project_filter_passes (project : manifest.Project.t) (e : path_or_str)
    (l : list path_or_str) :
  create_project_filter None project = true
  ∧ create_project_filter (Some []) project = true
  ∧ (create_project_filter (Some (e :: l)) project = true
     ↔ ∃ s, manifest.Project.path project = Some s ∧ a_str s ∈ e :: l)
  ∧ (manifest.Project.path project = None →
     create_project_filter (Some (e :: l)) project = false)
  ∧ (Forall (λ x, ∃ s, x = a_path s) (e :: l) →
     create_project_filter (Some (e :: l)) project = false).
Proof.
  split; [by idtac |]. split; [by idtac |].
  change (create_project_filter (Some (e :: l)) project)
    with (existsb (path_eq (manifest.Project.path project)) (e :: l)).
  split; [apply existsb_path_eq |]. split.
  - intros Hp. apply not_true_is_false. intros (s & Hs & _)%existsb_path_eq. congruence.
  - intros Hall. apply not_true_is_false. intros (s & _ & Hin)%existsb_path_eq.
    rewrite Forall_forall in Hall. by destruct (Hall _ Hin) as [s' [=]].
Qed.

Lemma project_filter_passes_witness :
  create_project_filter (Some [a_path "dep1"; a_path "dep2"])
    (manifest.Project.mk "dep1" None None None None (Some "dep1")) = false
  ∧ create_project_filter (Some [a_str "dep1"])
      (manifest.Project.mk "dep1" None None None None None) = false.
Proof.
  split.
  - pose proof (project_filter_passes
                  (manifest.Project.mk "dep1" None None None None (Some "dep1"))
                  (a_path "dep1") [a_path "dep2"]) as (_ & _ & _ & _ & H).
    apply H. repeat constructor; by eexists.
  - pose proof (project_filter_passes (manifest.Project.mk "dep1" None None None None None)
                  (a_str "dep1") []) as (_ & _ & _ & H & _).
    exact (H eq_refl).
Defined.

(** ** The walkers, continued *)

Lemma yield_from_each_ext {A B} (f g : B → list string → option (run A)) (items : list B) :
  (∀ x d, x ∈ items → f x d = g x d) →
  ∀ seen, yield_from_each f items seen = yield_from_each g items seen.
Proof.
  induction items as [|x items IH]; intros Hfg seen; simpl; [by idtac |].
  rewrite <- (Hfg x seen) by left.
  destruct (f x seen) as [r|]; [| by idtac].
  destruct (raised r); [by idtac |].
  rewrite IH; [by idtac |]. intros y d Hy. apply Hfg. by right.
Qed.

(** What the walkers read of the world and of their own attributes. *)
Lemma project_scan_congr w w' self self' m refurl specs :
  files w = files w' →
  iters.ProjectIter.workspace self = iters.ProjectIter.workspace self' →
  ∀ seen, iters.ProjectIter.scan w self m refurl specs seen
          = iters.ProjectIter.scan w' self' m refurl specs seen.
Proof.
  intros Hfiles Hws. induction specs as [|spec specs IH]; intros seen; simpl; [by idtac |].
  destruct (iters.Project.from_spec _ _ spec refurl) as [dep|e]; [| by idtac].
  case_bool_decide; [by apply IH |].
  rewrite <- Hfiles, <- Hws, <- IH. by idtac.
Qed.

Lemma project_iter_congr w w' self self' :
  files w = files w' →
  iters.ProjectIter.workspace self = iters.ProjectIter.workspace self' →
  (∀ pp, iters.ProjectIter.refurl_of w self pp = iters.ProjectIter.refurl_of w' self' pp) →
  ∀ fuel pp m seen,
    iters.ProjectIter.__iter w self fuel pp m seen
    = iters.ProjectIter.__iter w' self' fuel pp m seen.
Proof.
  intros Hfiles Hws Hrefurl. induction fuel as [|fuel IH]; intros pp m seen; simpl;
    [by idtac |].
  rewrite <- Hrefurl. destruct (iters.ProjectIter.refurl_of w self pp) as [refurl|e];
    [| by idtac].
  rewrite <- (project_scan_congr w w' self self' m refurl _ Hfiles Hws).
  destruct (iters.ProjectIter.scan_raised _); [by idtac |].
  erewrite yield_from_each_ext; [reflexivity |].
  intros [pp' m'] d _. apply IH.
Qed.

Lemma manifest_scan_congr w w' self self' dependencies :
  files w = files w' →
  iters.ManifestIter.workspace self = iters.ManifestIter.workspace self' →
  ∀ seen, iters.ManifestIter.scan w self dependencies seen
          = iters.ManifestIter.scan w' self' dependencies seen.
Proof.
  intros Hfiles Hws. induction dependencies as [|dep dependencies IH]; intros seen; simpl;
    [by idtac |].
  case_bool_decide; [by apply IH |].
  by rewrite <- Hfiles, <- Hws, <- IH.
Qed.

Lemma manifest_iter_congr w w' self self' :
  files w = files w' →
  iters.ManifestIter.workspace self = iters.ManifestIter.workspace self' →
  ∀ fuel pp mp seen,
    iters.ManifestIter.__iter w self fuel pp mp seen
    = iters.ManifestIter.__iter w' self' fuel pp mp seen.
Proof.
  intros Hfiles Hws. induction fuel as [|fuel IH]; intros pp mp seen; simpl; [by idtac |].
  rewrite <- Hfiles. destruct (iters.ManifestSpec.load (files w) mp None) as [m|e];
    [| by idtac].
  rewrite <- (manifest_scan_congr w w' self self' _ Hfiles Hws).
  destruct (iters.ManifestIter.scan w self _ seen) as [seen' deps].
  erewrite yield_from_each_ext; [reflexivity |].
  intros [pp' mp'] d _. apply IH.
Qed.

(** X13.  [skip_main] changes nothing but the first element: with it the
    walk yields what the walk without it yields after the main project, and
    visits the same paths, ends the same way and needs the same fuel. *)
Theorem skip_main_drops_only_main (w : World) (workspace : Workspace.t)
    (manifest_path : string) (resolve_url : bool) (fuel : nat) :
  let main_path := Workspace.info_main_path (Workspace.info workspace) in
  let run_of skip := iters.ProjectIter.__iter__ w
                       (iters.ProjectIter.mk workspace manifest_path skip resolve_url) fuel in
  run_of false
  = (λ r, mk_run (iters.Project.init (path_name main_path) main_path :: yielded r)
            (visited r) (raised r)) <$> run_of true.
Proof.
  intros main_path run_of. unfold run_of, iters.ProjectIter.__iter__; simpl.
  destruct (iters.ManifestSpec.load _ _ _) as [m|e]; [| by idtac].
  rewrite (project_iter_congr w w
             (iters.ProjectIter.mk workspace manifest_path false resolve_url)
             (iters.ProjectIter.mk workspace manifest_path true resolve_url))
    by (by idtac).
  by destruct (iters.ProjectIter.__iter _ _ _ _ _ _).
Qed.

(** X14.  Without [resolve_url] the project walker never looks at a clone,
    and the manifest walker never does: two worlds with the same files give
    the same run, whatever is cloned where. *)
Theorem walkers_read_files_only (w w' : World) (pself : iters.ProjectIter.t)
    (mself : iters.ManifestIter.t) (fuel : nat) :
  files w = files w' →
  (iters.ProjectIter.resolve_url pself = false →
   iters.ProjectIter.__iter__ w pself fuel = iters.ProjectIter.__iter__ w' pself fuel)
  ∧ iters.ManifestIter.__iter__ w mself fuel = iters.ManifestIter.__iter__ w' mself fuel.
Proof.
  intros Hfiles. split.
  - intros Hno. unfold iters.ProjectIter.__iter__. rewrite <- Hfiles.
    destruct (iters.ManifestSpec.load _ _ _) as [m|e]; [| by idtac].
    rewrite (project_iter_congr w w' pself pself Hfiles eq_refl); [by idtac |].
    intros pp. unfold iters.ProjectIter.refurl_of. by rewrite Hno.
  - unfold iters.ManifestIter.__iter__. by apply manifest_iter_congr.
Qed.

Lemma walkers_read_files_only_witness :
  iters.ManifestIter.__iter__ scenario_world
    (iters.ManifestIter.mk scenario_workspace "repos/main/anyrepo.toml") 3
  = iters.ManifestIter.__iter__ cloned_world
      (iters.ManifestIter.mk scenario_workspace "repos/main/anyrepo.toml") 3.
Proof.
  by apply (walkers_read_files_only scenario_world cloned_world
              (iters.ProjectIter.mk scenario_workspace "repos/main/anyrepo.toml" false false)
              (iters.ManifestIter.mk scenario_workspace "repos/main/anyrepo.toml") 3).
Defined.

Lemma load_not_found_file (fs : gmap string text) (path p : string) :
  manifest.Manifest.load fs path = Raise (ManifestNotFoundError p) → fs !! path = None.
Proof.
  unfold manifest.Manifest.load. destruct (fs !! path) as [[|data]|]; simpl; try (by idtac).
  destruct data as [| | | | |d]; simpl; try (by idtac).
  destruct (default (PDict []) (dict_get d "manifest")) as [| | | | |d']; simpl;
    try (by idtac).
  by destruct (manifest.Manifest.validate d').
Qed.

(** X15.  A root manifest that cannot be loaded: the manifest walker yields
    nothing and raises the error of [load], whichever it is.  The project
    walker yields the main project first; it raises the same error, except
    that a missing file counts as an empty manifest and ends the walk
    quietly, or with the assertion on the clone when [resolve_url] is set
    and the main project is no clone. *)
Theorem root_manifest_errors (w : World) (workspace : Workspace.t) (manifest_path : string)
    (skip_main resolve_url : bool) (fuel : nat) (e : exn) :
  manifest.Manifest.load (files w) manifest_path = Raise e →
  let pself := iters.ProjectIter.mk workspace manifest_path skip_main resolve_url in
  iters.ManifestIter.__iter__ w (iters.ManifestIter.mk workspace manifest_path) (S fuel)
  = Some (mk_run [] [] (Some e))
  ∧ (files w !! manifest_path ≠ None →
     iters.ProjectIter.__iter__ w pself fuel
     = Some (mk_run (iters.ProjectIter.main pself) [] (Some e)))
  ∧ (files w !! manifest_path = None →
     iters.ProjectIter.__iter__ w pself (S fuel)
     = Some (mk_run (iters.ProjectIter.main pself) []
               (if resolve_url && negb (Git.is_cloned w (Workspace.main_path workspace))
                then Some AssertionError else None))).
Proof.
  intros Hload pself. split; [| split].
  - unfold iters.ManifestIter.__iter__; simpl. unfold iters.ManifestSpec.load.
    rewrite Hload. by destruct e.
  - intros Hfile. unfold iters.ProjectIter.__iter__, iters.ManifestSpec.load; simpl.
    rewrite Hload. destruct e; try (by idtac).
    by apply load_not_found_file in Hload.
  - intros Hfile. unfold iters.ProjectIter.__iter__, iters.ManifestSpec.load; simpl.
    rewrite (load_missing_file _ _ Hfile); simpl.
    unfold iters.ProjectIter.refurl_of; simpl.
    destruct resolve_url; simpl; [| by rewrite app_nil_r].
    destruct (Git.is_cloned w (Workspace.main_path workspace)); simpl; by rewrite ?app_nil_r.
Qed.

Lemma root_manifest_errors_witness :
  iters.ManifestIter.__iter__ (mkWorld ∅ ∅)
    (iters.ManifestIter.mk scenario_workspace "repos/main/anyrepo.toml") 1
  = Some (mk_run [] [] (Some (ManifestNotFoundError "repos/main/anyrepo.toml")))
  ∧ iters.ProjectIter.__iter__ (mkWorld ∅ ∅)
      (iters.ProjectIter.mk scenario_workspace "repos/main/anyrepo.toml" false false) 1
    = Some (mk_run [iters.Project.init "main" "main"] [] None).
Proof.
  pose proof (root_manifest_errors (mkWorld ∅ ∅) scenario_workspace "repos/main/anyrepo.toml"
                false false 0 (ManifestNotFoundError "repos/main/anyrepo.toml") eq_refl)
    as (Hm & _ & Hp).
  split; [exact Hm | exact (Hp eq_refl)].
Defined.

(** The queue the scan of the project walker builds is determined by what it
    yielded. *)
Lemma project_scan_deps_spec w self m refurl specs seen :
  let s := iters.ProjectIter.scan w self m refurl specs seen in
  iters.ProjectIter.scan_deps s
  = omap (project_queued w (Workspace.path (iters.ProjectIter.workspace self)))
      (iters.ProjectIter.scan_yielded s).
Proof.
  revert seen. induction specs as [|spec specs IH]; intros seen; simpl; [by idtac |].
  destruct (iters.Project.from_spec _ _ _ _) as [dep|e] eqn:Hdep; simpl; [| by idtac].
  case_bool_decide as Hin; simpl; [by apply IH |].
  destruct (from_spec_path _ _ _ _ _ Hdep) as [_ Hmp].
  assert (project_queued w (Workspace.path (iters.ProjectIter.workspace self)) dep
          = match iters.ManifestSpec.load (files w)
                    (joinpath (joinpath (Workspace.path (iters.ProjectIter.workspace self))
                                 (iters.Project.path dep))
                       (iters.Project.manifest_path dep))
                    (Some iters.ManifestSpec.new) with
            | Ok dep_manifest =>
                if bool_decide (dep_manifest ≠ iters.ManifestSpec.new)
                then Some (joinpath (Workspace.path (iters.ProjectIter.workspace self))
                             (iters.Project.path dep), dep_manifest)
                else None
            | Raise _ => None
            end) as Hq.
  { unfold project_queued, manifest_location. by rewrite Hmp. }
  destruct (iters.ManifestSpec.load _ _ _) as [dep_manifest|e] eqn:Hload; simpl;
    rewrite Hq; [| by idtac].
  rewrite IH. by case_bool_decide.
Qed.

Lemma project_iter_cloned w self :
  iters.ProjectIter.resolve_url self = true →
  ∀ fuel pp m seen r,
    iters.ProjectIter.__iter w self fuel pp m seen = Some r →
    raised r = None →
    Git.is_cloned w pp = true
    ∧ ∀ dep entry, dep ∈ yielded r →
        project_queued w (Workspace.path (iters.ProjectIter.workspace self)) dep = Some entry →
        Git.is_cloned w entry.1 = true.
Proof.
  intros Hres. induction fuel as [|fuel IH]; intros pp m seen r; simpl; [by idtac |].
  unfold iters.ProjectIter.refurl_of. rewrite Hres.
  destruct (Git.is_cloned w pp) eqn:Hpp; [| by intros [= <-]].
  set (s := iters.ProjectIter.scan _ _ _ _ _ _).
  destruct (iters.ProjectIter.scan_raised s) eqn:Hrs; [by intros [= <-] |].
  destruct (yield_from_each _ _ _) as [r0|] eqn:Hr0; [| by idtac].
  intros [= <-]; simpl. intros Hnone. split; [by idtac |].
  intros dep entry [Hin | Hin]%elem_of_app Hq.
  - assert (entry ∈ iters.ProjectIter.scan_deps s) as Hentry.
    { unfold s. rewrite project_scan_deps_spec. apply list_elem_of_omap. by exists dep. }
    assert (∀ (x : string * iters.ManifestSpec.t) d r1,
              x ∈ iters.ProjectIter.scan_deps s →
              (let '(dep_project_path, dep_manifest) := x in
               iters.ProjectIter.__iter w self fuel dep_project_path dep_manifest) d
              = Some r1 →
              ∀ q, q ∈ d → q ∈ visited r1) as Hgrow.
    { intros [pp' m'] d r1 _ Hx q Hq'.
      apply (project_iter_visited w self fuel) in Hx as [-> _].
      apply elem_of_app. by left. }
    pose proof (yield_from_each_success _ _ Hgrow _ _ Hr0 Hnone) as (_ & Hitems & _).
    destruct (Hitems _ Hentry) as (d & r1 & Hrun & Hr1 & _).
    destruct entry as [pp' m']. by apply (IH _ _ _ _ Hrun Hr1).
  - revert Hnone dep entry Hin Hq. revert Hr0.
    apply (yield_from_each_inv
             (λ _ r, raised r = None →
                     ∀ dep entry, dep ∈ yielded r →
                       project_queued w (Workspace.path (iters.ProjectIter.workspace self)) dep
                       = Some entry →
                       Git.is_cloned w entry.1 = true)).
    + by intros _ _ dep entry ?%elem_of_nil.
    + intros d r1 r2 H1 Hr1 H2; simpl. intros Hr2 dep entry [Hin | Hin]%elem_of_app.
      * by apply H1.
      * by apply H2.
    + intros [pp' m'] d r1 _ Hrun Hr1. by apply (IH _ _ _ _ Hrun Hr1).
Qed.

(** X16.  A walk with [resolve_url] that ends without an exception has found
    a clone wherever it needed one: at the main project, and at every
    visited path whose manifest it descended into. *)
Theorem resolved_walk_needs_clones (w : World) (self : iters.ProjectIter.t) (fuel : nat)
    (r : run iters.Project.t) :
  iters.ProjectIter.resolve_url self = true →
  iters.ProjectIter.__iter__ w self fuel = Some r →
  raised r = None →
  let root := Workspace.path (iters.ProjectIter.workspace self) in
  Git.is_cloned w (Workspace.main_path (iters.ProjectIter.workspace self)) = true
  ∧ ∀ q m, q ∈ visited r →
      iters.ManifestSpec.load (files w) (manifest_location root q)
        (Some iters.ManifestSpec.new) = Ok m →
      m ≠ iters.ManifestSpec.new →
      Git.is_cloned w (joinpath root q) = true.
Proof.
  intros Hres. unfold iters.ProjectIter.__iter__.
  destruct (iters.ManifestSpec.load _ _ _) as [m0|e]; [| by intros [= <-]].
  destruct (iters.ProjectIter.__iter _ _ _ _ _ _) as [r0|] eqn:Hr0; [| by idtac].
  intros [= <-] Hnone. simpl in Hnone |- *.
  set (root := Workspace.path (iters.ProjectIter.workspace self)).
  destruct (project_iter_cloned w self Hres _ _ _ _ _ Hr0 Hnone) as [Hmain Hdeps].
  split; [by idtac |]. intros q m Hq Hm Hne.
  destruct (project_iter_visited w self _ _ _ _ _ Hr0) as [Hv _]. rewrite Hv in Hq.
  simpl in Hq. apply list_elem_of_fmap in Hq as (dep & -> & Hdep).
  apply (Hdeps dep (joinpath root (iters.Project.path dep), m) Hdep).
  unfold project_queued. fold root. rewrite Hm. by rewrite bool_decide_true.
Qed.

Lemma resolved_walk_needs_clones_witness :
  Git.is_cloned cloned_world "repos/main" = true
  ∧ Git.is_cloned cloned_world "repos/dep2" = true.
Proof.
  pose (self := iters.ProjectIter.mk scenario_workspace "repos/main/anyrepo.toml"
                  false true).
  destruct (iters.ProjectIter.__iter__ cloned_world self 3) as [r|] eqn:Hr;
    [| by vm_compute in Hr].
  assert (raised r = None) as Hnone.
  { vm_compute in Hr. by injection Hr as <-. }
  assert ("dep2" ∈ visited r) as Hdep2.
  { vm_compute in Hr. injection Hr as <-. simpl. set_solver. }
  destruct (resolved_walk_needs_clones cloned_world self 3 r eq_refl Hr Hnone)
    as [Hmain Hdeps].
  split; [exact Hmain |].
  apply (Hdeps "dep2"
           (manifest.Manifest.mk (manifest.Manifest.main manifest.Manifest.new)
              manifest.Defaults.new []
              [manifest.Project.mk "dep3" None None (Some "../dep3") None None;
               manifest.Project.mk "dep4" None None (Some "../dep4") None None]));
    [exact Hdep2 | by vm_compute | by idtac].
Defined.

Lemma project_scan_first_seen w self m refurl specs seen :
  let s := iters.ProjectIter.scan w self m refurl specs seen in
  iters.ProjectIter.scan_raised s = None →
  map iters.Project.path (iters.ProjectIter.scan_yielded s)
  = first_seen seen (map declared_path specs).
Proof.
  revert seen. induction specs as [|spec specs IH]; intros seen; simpl; [by idtac |].
  destruct (iters.Project.from_spec _ _ _ _) as [dep|e] eqn:Hdep; simpl; [| by idtac].
  destruct (from_spec_path _ _ _ _ _ Hdep) as [<- _].
  case_bool_decide as Hin; simpl; [by apply IH |].
  destruct (iters.ManifestSpec.load _ _ _) as [dep_manifest|e]; simpl; [| by idtac].
  intros Hnone. f_equal. by apply IH.
Qed.

(** X17.  The project walker yields breadth first: after the main project
    come the paths the root manifest declares, each once, in the order of
    their first declaration, and only then anything declared further
    down. *)
Theorem declared_siblings_come_first (w : World) (self : iters.ProjectIter.t) (fuel : nat)
    (m : iters.ManifestSpec.t) (r : run iters.Project.t) :
  iters.ManifestSpec.load (files w) (iters.ProjectIter.manifest_path self)
    (Some iters.ManifestSpec.new) = Ok m →
  iters.ProjectIter.__iter__ w self fuel = Some r →
  raised r = None →
  ∃ below,
    map iters.Project.path (yielded r)
    = map iters.Project.path (iters.ProjectIter.main self)
      ++ first_seen [] (declared m) ++ map iters.Project.path below
    ∧ ∀ dep, dep ∈ below → iters.Project.path dep ∉ declared m.
Proof.
  unfold iters.ProjectIter.__iter__. intros ->.
  destruct fuel as [|fuel]; simpl; [by idtac |].
  destruct (iters.ProjectIter.refurl_of _ _ _) as [refurl|e]; [| by intros [= <-]].
  set (s := iters.ProjectIter.scan _ _ _ _ _ _).
  destruct (iters.ProjectIter.scan_raised s) eqn:Hrs; [by intros [= <-] |].
  destruct (yield_from_each _ _ _) as [r0|] eqn:Hr0; [| by idtac].
  intros [= <-]; simpl. intros Hnone. exists (yielded r0). split.
  - rewrite !map_app. f_equal. f_equal. by apply project_scan_first_seen.
  - intros dep Hdep Hdecl.
    assert (iters.Project.path dep ∈ iters.ProjectIter.scan_done s) as Hdone.
    { apply list_elem_of_fmap in Hdecl as (spec & -> & Hspec).
      by apply (project_scan_complete w self m refurl _ [] Hrs). }
    assert (NoDup (iters.ProjectIter.scan_done s)) as Hnd.
    { apply project_scan_nodup. constructor. }
    enough (visited r0
            = iters.ProjectIter.scan_done s ++ map iters.Project.path (yielded r0)
            ∧ (NoDup (iters.ProjectIter.scan_done s) → NoDup (visited r0))) as [Hv Hn].
    { specialize (Hn Hnd). rewrite Hv in Hn. apply NoDup_app in Hn as (_ & Hdisj & _).
      apply (Hdisj _ Hdone). apply list_elem_of_fmap. by exists dep. }
    revert Hr0.
    apply (yield_from_each_inv
             (λ d r, visited r = d ++ map iters.Project.path (yielded r)
                     ∧ (NoDup d → NoDup (visited r)))).
    + intros d; simpl. by rewrite app_nil_r.
    + intros d r1 r2 [Hv1 Hn1] _ [Hv2 Hn2]; simpl. split.
      * by rewrite Hv2, Hv1, map_app, app_assoc.
      * by auto.
    + intros [pp' m'] d r1 _ Hrun. by apply (project_iter_visited w self fuel) in Hrun.
Qed.

Lemma declared_siblings_come_first_witness :
  ∃ r below,
    iters.ProjectIter.__iter__ scenario_world
      (iters.ProjectIter.mk scenario_workspace "repos/main/anyrepo.toml" false false) 3
    = Some r
    ∧ map iters.Project.path (yielded r)
      = ["main"] ++ ["dep1"; "dep2"] ++ map iters.Project.path below.
Proof.
  pose (self := iters.ProjectIter.mk scenario_workspace "repos/main/anyrepo.toml"
                  false false).
  pose (m := manifest.Manifest.mk (manifest.Manifest.main manifest.Manifest.new)
               manifest.Defaults.new []
               [manifest.Project.mk "dep1" None None (Some "../dep1") None None;
                manifest.Project.mk "dep2" None None (Some "../dep2") (Some "1-feature")
                  None]).
  destruct (iters.ProjectIter.__iter__ scenario_world self 3) as [r|] eqn:Hr;
    [| by vm_compute in Hr].
  assert (raised r = None) as Hnone.
  { vm_compute in Hr. by injection Hr as <-. }
  assert (iters.ManifestSpec.load (files scenario_world)
            (iters.ProjectIter.manifest_path self) (Some iters.ManifestSpec.new) = Ok m)
    as Hload by (by vm_compute).
  destruct (declared_siblings_come_first scenario_world self 3 m r Hload Hr Hnone)
    as (below & Heq & _).
  exists r, below. split; [by idtac | exact Heq].
Defined.

Lemma load_with_default fs path m :
  manifest.Manifest.load fs path = Ok m →
  iters.ManifestSpec.load fs path (Some iters.ManifestSpec.new) = Ok m.
Proof. intros Hm. unfold iters.ManifestSpec.load. by rewrite Hm. Qed.

Lemma project_iter_reachable w self mp fuel :
  let root := Workspace.path (iters.ProjectIter.workspace self) in
  ∀ pp m seen r,
    (∀ spec, spec ∈ manifest.Manifest.projects m → reachable w root mp (declared_path spec)) →
    iters.ProjectIter.__iter w self fuel pp m seen = Some r →
    ∀ dep, dep ∈ yielded r → reachable w root mp (iters.Project.path dep).
Proof.
  intros root. induction fuel as [|fuel IH]; intros pp m seen r Hm; simpl; [by idtac |].
  destruct (iters.ProjectIter.refurl_of _ _ _) as [refurl|e];
    [| by intros [= <-] dep ?%elem_of_nil].
  set (s := iters.ProjectIter.scan _ _ _ _ _ _).
  assert (∀ dep, dep ∈ iters.ProjectIter.scan_yielded s →
                 reachable w root mp (iters.Project.path dep)) as Hscan.
  { intros dep (spec & Hspec & -> & _)%project_scan_declared. by apply Hm. }
  destruct (iters.ProjectIter.scan_raised s) eqn:Hrs; [by intros [= <-] |].
  destruct (yield_from_each _ _ _) as [r0|] eqn:Hr0; [| by idtac].
  intros [= <-]; simpl. intros dep [Hin | Hin]%elem_of_app; [by apply Hscan |].
  revert Hr0 dep Hin.
  apply (yield_from_each_inv
           (λ _ r, ∀ dep, dep ∈ yielded r → reachable w root mp (iters.Project.path dep))).
  - by intros _ dep ?%elem_of_nil.
  - intros d r1 r2 H1 _ H2; simpl. intros dep [Hin | Hin]%elem_of_app; by auto.
  - intros [pp' m'] d r1 Hitem Hrun. eapply IH; [| exact Hrun].
    unfold s in Hitem. rewrite project_scan_deps_spec in Hitem.
    apply list_elem_of_omap in Hitem as (dep' & Hdep' & Hq).
    unfold project_queued in Hq. fold root in Hq.
    destruct (iters.ManifestSpec.load _ _ _) as [dep_manifest|] eqn:Hload; [| by idtac].
    case_bool_decide; [| by idtac]. injection Hq as _ ->.
    intros spec Hspec. by apply (reachable_step _ _ _ _ _ _ (Hscan _ Hdep') Hload).
Qed.

(** X18.  The project walker visits nothing but what the manifests lead to:
    every path it visits is declared by the root manifest or by the manifest
    found at a path that is itself reachable, whether or not the walk ends
    with an exception. *)
Theorem project_walker_visits_reachable_only (w : World) (self : iters.ProjectIter.t)
    (fuel : nat) (r : run iters.Project.t) :
  iters.ProjectIter.__iter__ w self fuel = Some r →
  ∀ q, q ∈ visited r →
    reachable w (Workspace.path (iters.ProjectIter.workspace self))
      (iters.ProjectIter.manifest_path self) q.
Proof.
  unfold iters.ProjectIter.__iter__.
  destruct (iters.ManifestSpec.load _ _ _) as [m|e] eqn:Hload;
    [| by intros [= <-] q ?%elem_of_nil].
  destruct (iters.ProjectIter.__iter _ _ _ _ _ _) as [r0|] eqn:Hr0; [| by idtac].
  intros [= <-]; simpl. intros q Hq.
  destruct (project_iter_visited w self _ _ _ _ _ Hr0) as [Hv _]. rewrite Hv in Hq.
  simpl in Hq. apply list_elem_of_fmap in Hq as (dep & -> & Hdep).
  eapply (project_iter_reachable w self); [| exact Hr0 | exact Hdep].
  intros spec Hspec. by apply (reachable_root _ _ _ _ _ Hload).
Qed.

Lemma project_walker_visits_reachable_only_witness :
  reachable scenario_world "repos" "repos/main/anyrepo.toml" "dep3".
Proof.
  pose (self := iters.ProjectIter.mk scenario_workspace "repos/main/anyrepo.toml"
                  false false).
  destruct (iters.ProjectIter.__iter__ scenario_world self 3) as [r|] eqn:Hr;
    [| by vm_compute in Hr].
  apply (project_walker_visits_reachable_only scenario_world self 3 r Hr).
  vm_compute in Hr. injection Hr as <-. simpl. set_solver.
Defined.

Lemma manifest_iter_reachable w self mp0 fuel :
  let root := Workspace.path (iters.ManifestIter.workspace self) in
  ∀ pp mp seen r,
    (∀ m spec, manifest.Manifest.load (files w) mp = Ok m →
               spec ∈ manifest.Manifest.projects m →
               reachable w root mp0 (declared_path spec)) →
    iters.ManifestIter.__iter w self fuel pp mp seen = Some r →
    ∀ q, q ∈ visited r → q ∈ seen ∨ reachable w root mp0 q.
Proof.
  intros root. induction fuel as [|fuel IH]; intros pp mp seen r Hmp; simpl; [by idtac |].
  destruct (iters.ManifestSpec.load (files w) mp None) as [m|e] eqn:Hload;
    [| intros [= <-] q Hq; by left].
  apply load_no_default in Hload.
  pose proof (manifest_scan_spec w self
                (iters.Manifest.dependencies (iters.Manifest.from_spec m mp)) seen
                (manifest_dependencies_uniform _)) as Hscan.
  simpl in Hscan. fold root in Hscan.
  destruct (iters.ManifestIter.scan w self _ seen) as [seen' deps].
  destruct Hscan as (new & Hseen' & _ & Hnew & _ & Hdeps). simpl in Hseen', Hdeps.
  assert (∀ q, q ∈ new → reachable w root mp0 q) as Hreach.
  { intros q [_ Hq]%Hnew. rewrite manifest_dependencies_paths in Hq.
    apply list_elem_of_fmap in Hq as (spec & -> & Hspec). by eapply Hmp. }
  destruct (yield_from_each _ _ _) as [r0|] eqn:Hr0; [| by idtac].
  intros [= <-]; simpl.
  enough (∀ q, q ∈ visited r0 → q ∈ seen' ∨ reachable w root mp0 q) as Hr.
  { intros q [Hq | Hq]%Hr; [| by right]. subst seen'.
    apply elem_of_app in Hq as [Hq | Hq]; [by left | right; by apply Hreach]. }
  revert Hr0.
  apply (yield_from_each_inv
           (λ d r, ∀ q, q ∈ visited r → q ∈ d ∨ reachable w root mp0 q)).
  - intros d q Hq. by left.
  - intros d r1 r2 H1 _ H2; simpl. intros q [Hq | Hq]%H2; [by apply H1 | by right].
  - intros [pp' mp'] d r1 Hitem Hrun. eapply IH; [| exact Hrun].
    subst deps. apply list_elem_of_fmap in Hitem as (q0 & [= -> ->] & Hq0).
    apply list_elem_of_filter in Hq0 as [_ Hq0].
    intros m' spec Hm' Hspec.
    apply (reachable_step _ _ _ _ _ _ (Hreach _ Hq0) (load_with_default _ _ _ Hm') Hspec).
Qed.

(** X19.  The manifest walker, too, visits only what the manifests lead to,
    and the manifests it yields are the root manifest and those found at
    reachable paths. *)
Theorem manifest_walker_visits_reachable_only (w : World) (self : iters.ManifestIter.t)
    (fuel : nat) (r : run iters.Manifest.t) :
  iters.ManifestIter.__iter__ w self fuel = Some r →
  let root := Workspace.path (iters.ManifestIter.workspace self) in
  (∀ q, q ∈ visited r → reachable w root (iters.ManifestIter.manifest_path self) q)
  ∧ (∀ manifest, manifest ∈ yielded r →
       iters.Manifest.path manifest = iters.ManifestIter.manifest_path self
       ∨ ∃ q, reachable w root (iters.ManifestIter.manifest_path self) q
              ∧ iters.Manifest.path manifest = manifest_location root q).
Proof.
  intros Hr root.
  assert (∀ q, q ∈ visited r → reachable w root (iters.ManifestIter.manifest_path self) q)
    as Hvisited.
  { intros q Hq. unfold iters.ManifestIter.__iter__ in Hr.
    assert (∀ m spec,
              manifest.Manifest.load (files w) (iters.ManifestIter.manifest_path self) = Ok m →
              spec ∈ manifest.Manifest.projects m →
              reachable w root (iters.ManifestIter.manifest_path self) (declared_path spec))
      as Hroot.
    { intros m spec Hm Hspec.
      by apply (reachable_root _ _ _ _ _ (load_with_default _ _ _ Hm)). }
    by destruct (manifest_iter_reachable w self (iters.ManifestIter.manifest_path self)
                   _ _ _ _ _ Hroot Hr q Hq) as [?%elem_of_nil | Hreach]. }
  split; [by idtac |]. intros manifest Hin.
  destruct (manifest_walker_run w self fuel r Hr) as (ps & _ & _ & _ & Hps & Hpaths & _).
  fold root in Hps, Hpaths.
  assert (iters.Manifest.path manifest ∈ map iters.Manifest.path (yielded r)) as Hpath.
  { apply list_elem_of_fmap. by exists manifest. }
  assert (iters.Manifest.path manifest ∈ map (manifest_location root) ps →
          ∃ q, reachable w root (iters.ManifestIter.manifest_path self) q
               ∧ iters.Manifest.path manifest = manifest_location root q) as Hfrom.
  { intros (q & Heq & Hq)%list_elem_of_fmap. exists q. split; [| by idtac].
    apply Hvisited. by apply Hps. }
  destruct Hpaths as [Hpaths | Hpaths]; rewrite Hpaths in Hpath.
  - right. by apply Hfrom.
  - apply elem_of_cons in Hpath as [Hroot | Hrest]; [by left | right; by apply Hfrom].
Qed.

Lemma manifest_walker_visits_reachable_only_witness :
  reachable scenario_world "repos" "repos/main/anyrepo.toml" "dep3".
Proof.
  pose (self := iters.ManifestIter.mk scenario_workspace "repos/main/anyrepo.toml").
  destruct (iters.ManifestIter.__iter__ scenario_world self 3) as [r|] eqn:Hr;
    [| by vm_compute in Hr].
  apply (manifest_walker_visits_reachable_only scenario_world self 3 r Hr).
  vm_compute in Hr. injection Hr as <-. simpl. set_solver.
Defined.

Lemma manifest_iter_loaded w self fuel :
  ∀ pp mp seen r,
    iters.ManifestIter.__iter w self fuel pp mp seen = Some r →
    ∀ manifest, manifest ∈ yielded r →
      manifest.Manifest.load (files w) (iters.Manifest.path manifest)
      = Ok (iters.Manifest.spec manifest).
Proof.
  induction fuel as [|fuel IH]; intros pp mp seen r; simpl; [by idtac |].
  destruct (iters.ManifestSpec.load (files w) mp None) as [m|e] eqn:Hload;
    [| by intros [= <-] manifest ?%elem_of_nil].
  apply load_no_default in Hload.
  destruct (iters.ManifestIter.scan w self _ seen) as [seen' deps].
  destruct (yield_from_each _ _ _) as [r0|] eqn:Hr0; [| by idtac].
  intros [= <-]; simpl. intros manifest [-> | Hin]%elem_of_cons; [by idtac |].
  revert Hr0 manifest Hin.
  apply (yield_from_each_inv
           (λ _ r, ∀ manifest, manifest ∈ yielded r →
                     manifest.Manifest.load (files w) (iters.Manifest.path manifest)
                     = Ok (iters.Manifest.spec manifest))).
  - by intros _ manifest ?%elem_of_nil.
  - intros d r1 r2 H1 _ H2; simpl. intros manifest [Hin | Hin]%elem_of_app; by auto.
  - intros [pp' mp'] d r1 _ Hrun. by apply (IH _ _ _ _ Hrun).
Qed.

(** X20.  Every manifest the manifest walker yields is what [load] makes of
    the file at the manifest's own path; so it satisfies the validator's
    rules, and the file exists. *)
Theorem yielded_manifests_are_loaded (w : World) (self : iters.ManifestIter.t)
    (fuel : nat) (r : run iters.Manifest.t) (manifest : iters.Manifest.t) :
  iters.ManifestIter.__iter__ w self fuel = Some r →
  manifest ∈ yielded r →
  manifest.Manifest.load (files w) (iters.Manifest.path manifest)
  = Ok (iters.Manifest.spec manifest)
  ∧ manifest.Manifest.valid (iters.Manifest.spec manifest)
  ∧ is_Some (files w !! iters.Manifest.path manifest).
Proof.
  intros Hr Hin.
  pose proof (manifest_iter_loaded w self fuel _ _ _ _ Hr manifest Hin) as Hload.
  split; [by idtac |].
  apply load_manifest_of in Hload as (content & Hfile & Hm). split.
  - unfold manifest_of in Hm.
    destruct (yaml_load content) as [[| | | | |d]|]; simpl in Hm; try (by idtac).
    unfold manifest.Manifest.init in Hm.
    destruct (default (PDict []) (dict_get d "manifest")) as [| | | | |d'];
      try (by idtac).
    destruct (manifest.Manifest.validate d') as [errors|m'] eqn:Hv; [by idtac |].
    injection Hm as <-. by eapply manifest_validate_valid.
  - by exists content.
Qed.

Lemma yielded_manifests_are_loaded_witness :
  is_Some (files scenario_world !! "repos/main/anyrepo.toml").
Proof.
  pose (self := iters.ManifestIter.mk scenario_workspace "repos/main/anyrepo.toml").
  destruct (iters.ManifestIter.__iter__ scenario_world self 3) as [r|] eqn:Hr;
    [| by vm_compute in Hr].
  pose (root_manifest :=
          iters.Manifest.mk
            (manifest.Manifest.mk (manifest.Manifest.main manifest.Manifest.new)
               manifest.Defaults.new []
               [manifest.Project.mk "dep1" None None (Some "../dep1") None None;
                manifest.Project.mk "dep2" None None (Some "../dep2") (Some "1-feature")
                  None])
            "repos/main/anyrepo.toml").
  apply (yielded_manifests_are_loaded scenario_world self 3 r root_manifest Hr).
  vm_compute in Hr. injection Hr as <-. simpl. by left.
Defined.

(** X21.  The two walkers agree on what there is to visit: started on the
    same workspace and root manifest, runs that both end without an
    exception have visited the same paths, namely the reachable ones. *)
Theorem walkers_visit_same_paths (w : World) (workspace : Workspace.t)
    (manifest_path : string) (skip_main resolve_url : bool) (fuel fuel' : nat)
    (rp : run iters.Project.t) (rm : run iters.Manifest.t) :
  iters.ProjectIter.__iter__ w
    (iters.ProjectIter.mk workspace manifest_path skip_main resolve_url) fuel = Some rp →
  iters.ManifestIter.__iter__ w (iters.ManifestIter.mk workspace manifest_path) fuel'
  = Some rm →
  raised rp = None →
  raised rm = None →
  ∀ q, (q ∈ visited rp ↔ reachable w (Workspace.path workspace) manifest_path q)
       ∧ (q ∈ visited rm ↔ reachable w (Workspace.path workspace) manifest_path q).
Proof.
  intros Hp Hm Hnp Hnm q.
  set (pself := iters.ProjectIter.mk workspace manifest_path skip_main resolve_url) in *.
  set (mself := iters.ManifestIter.mk workspace manifest_path) in *.
  destruct (project_walker_run w pself fuel rp Hp) as (deps & _ & _ & _ & _ & Hpc).
  destruct (manifest_walker_run w mself fuel' rm Hm) as (ps & _ & _ & _ & _ & _ & Hmc).
  split; split.
  - revert Hp. unfold iters.ProjectIter.__iter__.
    destruct (iters.ManifestSpec.load _ _ _) as [m|e] eqn:Hload;
      [| by intros [= <-] ?%elem_of_nil].
    destruct (iters.ProjectIter.__iter _ _ _ _ _ _) as [r0|] eqn:Hr0; [| by idtac].
    intros [= <-]; simpl. intros Hq.
    destruct (project_iter_visited w pself _ _ _ _ _ Hr0) as [Hv _]. rewrite Hv in Hq.
    simpl in Hq. apply list_elem_of_fmap in Hq as (dep & -> & Hdep).
    eapply (project_iter_reachable w pself); [| exact Hr0 | exact Hdep].
    intros spec Hspec. by apply (reachable_root _ _ _ _ _ Hload).
  - by apply (Hpc Hnp).
  - intros Hq. unfold iters.ManifestIter.__iter__ in Hm.
    assert (∀ m spec,
              manifest.Manifest.load (files w) manifest_path = Ok m →
              spec ∈ manifest.Manifest.projects m →
              reachable w (Workspace.path workspace) manifest_path (declared_path spec))
      as Hroot.
    { intros m spec Hload Hspec.
      by apply (reachable_root _ _ _ _ _ (load_with_default _ _ _ Hload)). }
    by destruct (manifest_iter_reachable w mself manifest_path _ _ _ _ _ Hroot Hm q Hq)
      as [?%elem_of_nil | Hreach].
  - intros Hq. by apply (Hmc Hnm).
Qed.

Lemma walkers_visit_same_paths_witness :
  ∃ rp rm,
    iters.ProjectIter.__iter__ scenario_world
      (iters.ProjectIter.mk scenario_workspace "repos/main/anyrepo.toml" false false) 3
    = Some rp
    ∧ iters.ManifestIter.__iter__ scenario_world
        (iters.ManifestIter.mk scenario_workspace "repos/main/anyrepo.toml") 3 = Some rm
    ∧ ("dep4" ∈ visited rp ↔ reachable scenario_world "repos" "repos/main/anyrepo.toml" "dep4")
    ∧ ("dep4" ∈ visited rm ↔ reachable scenario_world "repos" "repos/main/anyrepo.toml" "dep4").
Proof.
  destruct (iters.ProjectIter.__iter__ scenario_world
              (iters.ProjectIter.mk scenario_workspace "repos/main/anyrepo.toml" false false)
              3) as [rp|] eqn:Hp; [| by vm_compute in Hp].
  destruct (iters.ManifestIter.__iter__ scenario_world
              (iters.ManifestIter.mk scenario_workspace "repos/main/anyrepo.toml") 3)
    as [rm|] eqn:Hm; [| by vm_compute in Hm].
  assert (raised rp = None) as Hnp.
  { vm_compute in Hp. by injection Hp as <-. }
  assert (raised rm = None) as Hnm.
  { vm_compute in Hm. by injection Hm as <-. }
  exists rp, rm. split; [by idtac |]. split; [by idtac |].
  exact (walkers_visit_same_paths scenario_world scenario_workspace "repos/main/anyrepo.toml"
           false false 3 3 rp rm Hp Hm Hnp Hnm "dep4").
Defined.

(** * The walkers and the traversals in the spec's words *)



Lemma first_by_path_paths (visited : list string) (reached : list iters.Project.t) :
  map iters.Project.path (first_by_path visited reached)
  = first_seen visited (map iters.Project.path reached).
Proof.
  revert visited. induction reached as [|dep reached IH]; intros visited; simpl; [by idtac |].
  case_bool_decide; [by apply IH |]. simpl. by rewrite IH.
Qed.








(** * Termination, and every path once *)






(** The walkers on a diamond: the traversal in the spec's words reaches the
    declaration of dep4 in the manifest of dep1 before the one in the
    manifest of dep2, and the project walker yields the former. *)
Lemma diamond_first_chain_wins :
  ∃ r m walked,
    iters.ProjectIter.__iter__ diamond_world
      (iters.ProjectIter.mk scenario_workspace "repos/main/anyrepo.toml" true false) 3
    = Some r
    ∧ raised r = None
    ∧ map (λ dep, (iters.Project.path dep, iters.Project.revision dep)) (yielded r)
      = [("dep1", None); ("dep2", None); ("dep4", Some "from-dep1")]
    ∧ manifest.Manifest.load (files diamond_world) "repos/main/anyrepo.toml" = Ok m
    ∧ spec_project_walk diamond_world "repos" false 3 [("repos/main", m)] [] = Some walked
    ∧ map (λ dep, (iters.Project.path dep, iters.Project.revision dep)) (spec_reached walked)
      = [("dep1", None); ("dep2", None); ("dep4", Some "from-dep1");
         ("dep4", Some "from-dep2")]
    ∧ spec_yielded walked = yielded r.
Proof.
  do 3 eexists. split; [by vm_compute |]. split; [by idtac |]. split; [by idtac |].
  split; [by vm_compute |]. split; [by vm_compute |]. by idtac.
Qed.




